(** * The animation timeline controller and the typed-text sequencer of App.tsx

    A shallow embedding of [src/App.tsx]: the math helpers, the timeline
    constants, the per-frame callback of [AnimatedScene] (the function handed
    to [useFrame]) and the timer callback of the typed-text effect of [App].

    Number model.  A JavaScript [number] is an IEEE-754 double.  The
    development reads every number as the exact rational it denotes and every
    arithmetic operation as the exact one: decimal literals such as [0.7] are
    the fractions they spell, [Math.PI] is the rational value of its double.
    Rounding, NaN and infinities are outside the model.

    Effects.  The frame callback mutates three scene groups and six refs and
    calls up to three consumer callbacks.  It is written in a small
    state-and-trace monad [Eff]: the state is the groups and the refs, the
    trace lists, in program order, every call of the two [emit...] helpers
    (with the value the controller computed) and every invocation of a
    consumer callback.  A callback prop is optional in the source
    ([onBackgroundFadeChange?.(clamped)]); the trace records the call site
    being reached, and [App] passes all three callbacks. *)

From Stdlib Require Import QArith Qabs Qminmax Qpower Lqa.
From Stdlib Require Import List Bool Arith ZArith Lia String.
Import ListNotations.

Open Scope Q_scope.

(** ** Comparisons on numbers, as booleans *)

Definition Qgeb (a b : Q) : bool := Qle_bool b a.    (* a >= b *)
Definition Qltb (a b : Q) : bool := negb (Qle_bool b a).  (* a < b *)
Definition Qgtb (a b : Q) : bool := negb (Qle_bool a b).  (* a > b *)

(** ** Math helpers (App.tsx, lines 26-31) *)

Definition clamp (value min max : Q) : Q := Qmin max (Qmax min value).

Definition lerp (from to t : Q) : Q := from + (to - from) * t.

Definition easeOutCubic (t : Q) : Q := 1 - (1 - t) ^ 3.

(** The double [Math.PI] is 884279719003555 / 2^48. *)
Definition Math_PI : Q := 884279719003555 # 281474976710656.

(** ** Timeline constants (App.tsx, lines 44-80) *)

Definition CAKE_START_Y : Q := 10.
Definition CAKE_END_Y : Q := 0.
Definition CAKE_DESCENT_DURATION : Q := 3.

Definition TABLE_START_Z : Q := 30.
Definition TABLE_END_Z : Q := 0.
Definition TABLE_SLIDE_DURATION : Q := 0.7.
Definition TABLE_SLIDE_START : Q :=
  CAKE_DESCENT_DURATION - TABLE_SLIDE_DURATION - 0.1.

Definition CANDLE_START_Y : Q := 5.
Definition CANDLE_END_Y : Q := 0.
Definition CANDLE_DROP_DURATION : Q := 1.2.
Definition CANDLE_DROP_START : Q :=
  Qmax CAKE_DESCENT_DURATION (TABLE_SLIDE_START + TABLE_SLIDE_DURATION) + 1.0.

Definition totalAnimationTime : Q := CANDLE_DROP_START + CANDLE_DROP_DURATION.

Definition BACKGROUND_FADE_DURATION : Q := 1.
Definition BACKGROUND_FADE_OFFSET : Q := 0.
Definition BACKGROUND_FADE_END : Q :=
  Qmax (CANDLE_DROP_START - BACKGROUND_FADE_OFFSET) BACKGROUND_FADE_DURATION.
Definition BACKGROUND_FADE_START : Q :=
  Qmax (BACKGROUND_FADE_END - BACKGROUND_FADE_DURATION) 0.

(** The deadband of the two [emit...] helpers (lines 150 and 158). *)
Definition DEADBAND : Q := 0.005.

(** ** Scene groups *)

Module Three.

Record Vector3 : Type := vec3 { x : Q; y : Q; z : Q }.

(** What the controller touches of a three.js [Group]. *)
Record Group : Type := mkGroup {
  position : Vector3;
  rotation : Vector3;
  visible : bool
}.

(** A freshly constructed [Group]: at the origin, unrotated, visible. *)
Definition newGroup : Group := mkGroup (vec3 0 0 0) (vec3 0 0 0) true.

(** [g.position.set(a, b, c)] and friends. *)
Definition position_set (a b c : Q) (g : Group) : Group :=
  mkGroup (vec3 a b c) (rotation g) (visible g).
Definition rotation_set (a b c : Q) (g : Group) : Group :=
  mkGroup (position g) (vec3 a b c) (visible g).
Definition position_x (v : Q) (g : Group) : Group :=
  mkGroup (vec3 v (y (position g)) (z (position g))) (rotation g) (visible g).
Definition position_y (v : Q) (g : Group) : Group :=
  mkGroup (vec3 (x (position g)) v (z (position g))) (rotation g) (visible g).
Definition position_z (v : Q) (g : Group) : Group :=
  mkGroup (vec3 (x (position g)) (y (position g)) v) (rotation g) (visible g).
Definition rotation_x (v : Q) (g : Group) : Group :=
  mkGroup (position g) (vec3 v (y (rotation g)) (z (rotation g))) (visible g).
Definition rotation_y (v : Q) (g : Group) : Group :=
  mkGroup (position g) (vec3 (x (rotation g)) v (z (rotation g))) (visible g).
Definition rotation_z (v : Q) (g : Group) : Group :=
  mkGroup (position g) (vec3 (x (rotation g)) (y (rotation g)) v) (visible g).
Definition set_visible (b : bool) (g : Group) : Group :=
  mkGroup (position g) (rotation g) b.

End Three.
Import Three.

(** The three groups the frame callback drives, once mounted. *)
Record Scene : Type := mkScene {
  cake : Group;
  table : Group;
  candle : Group
}.

(** ** Controller state: the refs of [AnimatedScene] (lines 136-141) *)

Record Refs : Type := mkRefs {
  animationStartRef : option Q;
  hasPrimedRef : bool;
  hasCompletedRef : bool;
  completionNotifiedRef : bool;
  backgroundOpacityRef : Q;
  environmentProgressRef : Q
}.

Definition initialRefs : Refs := mkRefs None false false false 1 0.

(** ** The trace *)

Inductive Action : Type :=
| call_emitBackgroundOpacity (value : Q)
| call_emitEnvironmentProgress (value : Q)
| onBackgroundFadeChange (opacity : Q)
| onEnvironmentProgressChange (progress : Q)
| onAnimationComplete.

(** ** The monad of the frame callback *)

Record Frame : Type := mkFrame { scene : Scene; refs : Refs }.

Definition Eff (A : Type) : Type := Frame -> A * Frame * list Action.

Definition ret {A} (a : A) : Eff A := fun s => (a, s, []).

Definition bind {A B} (m : Eff A) (k : A -> Eff B) : Eff B :=
  fun s =>
    let '(a, s1, t1) := m s in
    let '(b, s2, t2) := k a s1 in
    (b, s2, t1 ++ t2).

Declare Scope eff_scope.
Delimit Scope eff_scope with eff.
Bind Scope eff_scope with Eff.
Notation "x <- m ;; k" := (bind m (fun x => k))
  (at level 61, m at next level, right associativity) : eff_scope.
Notation "m ;; k" := (bind m (fun _ => k))
  (at level 61, right associativity) : eff_scope.
Open Scope eff_scope.

Definition read {A} (f : Refs -> A) : Eff A := fun s => (f (refs s), s, []).
Definition look {A} (f : Scene -> A) : Eff A := fun s => (f (scene s), s, []).
Definition call (a : Action) : Eff unit := fun s => (tt, s, [a]).
Definition when (b : bool) (m : Eff unit) : Eff unit := if b then m else ret tt.

Definition on_refs (f : Refs -> Refs) : Eff unit :=
  fun s => (tt, mkFrame (scene s) (f (refs s)), []).
Definition on_scene (f : Scene -> Scene) : Eff unit :=
  fun s => (tt, mkFrame (f (scene s)) (refs s), []).

Definition on_cake (f : Group -> Group) : Eff unit :=
  on_scene (fun sc => mkScene (f (cake sc)) (table sc) (candle sc)).
Definition on_table (f : Group -> Group) : Eff unit :=
  on_scene (fun sc => mkScene (cake sc) (f (table sc)) (candle sc)).
Definition on_candle (f : Group -> Group) : Eff unit :=
  on_scene (fun sc => mkScene (cake sc) (table sc) (f (candle sc))).

Definition set_animationStartRef (v : option Q) : Eff unit :=
  on_refs (fun r => mkRefs v (hasPrimedRef r) (hasCompletedRef r)
                      (completionNotifiedRef r) (backgroundOpacityRef r)
                      (environmentProgressRef r)).
Definition set_hasPrimedRef (v : bool) : Eff unit :=
  on_refs (fun r => mkRefs (animationStartRef r) v (hasCompletedRef r)
                      (completionNotifiedRef r) (backgroundOpacityRef r)
                      (environmentProgressRef r)).
Definition set_hasCompletedRef (v : bool) : Eff unit :=
  on_refs (fun r => mkRefs (animationStartRef r) (hasPrimedRef r) v
                      (completionNotifiedRef r) (backgroundOpacityRef r)
                      (environmentProgressRef r)).
Definition set_completionNotifiedRef (v : bool) : Eff unit :=
  on_refs (fun r => mkRefs (animationStartRef r) (hasPrimedRef r)
                      (hasCompletedRef r) v (backgroundOpacityRef r)
                      (environmentProgressRef r)).
Definition set_backgroundOpacityRef (v : Q) : Eff unit :=
  on_refs (fun r => mkRefs (animationStartRef r) (hasPrimedRef r)
                      (hasCompletedRef r) (completionNotifiedRef r) v
                      (environmentProgressRef r)).
Definition set_environmentProgressRef (v : Q) : Eff unit :=
  on_refs (fun r => mkRefs (animationStartRef r) (hasPrimedRef r)
                      (hasCompletedRef r) (completionNotifiedRef r)
                      (backgroundOpacityRef r) v).

(** ** The emit helpers (lines 148-162) *)

Definition emitBackgroundOpacity (value : Q) : Eff unit :=
  call (call_emitBackgroundOpacity value) ;;
  let clamped := clamp value 0 1 in
  last <- read backgroundOpacityRef ;;
  when (Qgtb (Qabs (clamped - last)) DEADBAND)
    (set_backgroundOpacityRef clamped ;;
     call (onBackgroundFadeChange clamped)).

Definition emitEnvironmentProgress (value : Q) : Eff unit :=
  call (call_emitEnvironmentProgress value) ;;
  let clamped := clamp value 0 1 in
  last <- read environmentProgressRef ;;
  when (Qgtb (Qabs (clamped - last)) DEADBAND)
    (set_environmentProgressRef clamped ;;
     call (onEnvironmentProgressChange clamped)).

(** Lines 143-146: the effect run on mount, and again when a callback prop
    changes.  It hands the consumers the stored values as they are, outside
    the deadband rule, and writes nothing. *)
Definition mountEffect : Eff unit :=
  opacity <- read backgroundOpacityRef ;;
  call (onBackgroundFadeChange opacity) ;;
  progress <- read environmentProgressRef ;;
  call (onEnvironmentProgressChange progress).

(** ** The frame callback (lines 164-277), by its blocks *)

(** Lines 173-181. *)
Definition prime : Eff unit :=
  on_cake (position_set 0 CAKE_START_Y 0) ;;
  on_cake (rotation_set 0 0 0) ;;
  on_table (position_set 0 0 TABLE_START_Z) ;;
  on_table (rotation_set 0 0 0) ;;
  on_candle (position_set 0 CANDLE_START_Y 0) ;;
  on_candle (set_visible false) ;;
  set_hasPrimedRef true.

(** Lines 183-190. *)
Definition pauseBranch : Eff unit :=
  emitBackgroundOpacity 1 ;;
  emitEnvironmentProgress 0 ;;
  set_animationStartRef None ;;
  set_hasCompletedRef false ;;
  set_completionNotifiedRef false.

(** Lines 195-198 and 272-275. *)
Definition notifyCompletion : Eff unit :=
  notified <- read completionNotifiedRef ;;
  when (negb notified)
    (set_completionNotifiedRef true ;;
     call onAnimationComplete).

(** Lines 192-200. *)
Definition completedBranch : Eff unit :=
  emitBackgroundOpacity 0 ;;
  emitEnvironmentProgress 1 ;;
  notifyCompletion.

(** Lines 202-207: the clamped elapsed time of this tick. *)
Definition clampedElapsedFrom (start elapsedTime : Q) : Q :=
  let elapsed := elapsedTime - start in
  clamp elapsed 0 totalAnimationTime.

Definition startClock (elapsedTime : Q) : Eff Q :=
  start <- read animationStartRef ;;
  match start with
  | None => set_animationStartRef (Some elapsedTime) ;; ret elapsedTime
  | Some t0 => ret t0
  end.

(** Lines 209-216. *)
Definition cakeSegment (clampedElapsed : Q) : Eff unit :=
  let cakeProgress := clamp (clampedElapsed / CAKE_DESCENT_DURATION) 0 1 in
  let cakeEase := easeOutCubic cakeProgress in
  on_cake (position_y (lerp CAKE_START_Y CAKE_END_Y cakeEase)) ;;
  on_cake (position_x 0) ;;
  on_cake (position_z 0) ;;
  on_cake (rotation_y (cakeEase * Math_PI * 2)) ;;
  on_cake (rotation_x 0) ;;
  on_cake (rotation_z 0).

(** Lines 218-229. *)
Definition tableSegment (clampedElapsed : Q) : Eff unit :=
  let tableZ :=
    if Qgeb clampedElapsed TABLE_SLIDE_START then
      let tableProgress :=
        clamp ((clampedElapsed - TABLE_SLIDE_START) / TABLE_SLIDE_DURATION) 0 1 in
      let tableEase := easeOutCubic tableProgress in
      lerp TABLE_START_Z TABLE_END_Z tableEase
    else TABLE_START_Z in
  on_table (position_set 0 0 tableZ) ;;
  on_table (rotation_set 0 0 0).

(** Lines 231-245. *)
Definition candleSegment (clampedElapsed : Q) : Eff unit :=
  if Qgeb clampedElapsed CANDLE_DROP_START then
    shown <- look (fun sc => visible (candle sc)) ;;
    when (negb shown) (on_candle (set_visible true)) ;;
    let candleProgress :=
      clamp ((clampedElapsed - CANDLE_DROP_START) / CANDLE_DROP_DURATION) 0 1 in
    let candleEase := easeOutCubic candleProgress in
    on_candle (position_y (lerp CANDLE_START_Y CANDLE_END_Y candleEase))
  else
    on_candle (set_visible false) ;;
    on_candle (position_set 0 CANDLE_START_Y 0).

(** Lines 247-260. *)
Definition backgroundFade (clampedElapsed : Q) : Eff unit :=
  if Qltb clampedElapsed BACKGROUND_FADE_START then
    emitBackgroundOpacity 1 ;;
    emitEnvironmentProgress 0
  else
    let fadeProgress :=
      clamp ((clampedElapsed - BACKGROUND_FADE_START) / BACKGROUND_FADE_DURATION)
            0 1 in
    let eased := easeOutCubic fadeProgress in
    let backgroundOpacity := 1 - eased in
    emitBackgroundOpacity backgroundOpacity ;;
    emitEnvironmentProgress (1 - backgroundOpacity).

(** Lines 262-276. *)
Definition terminalCheck (clampedElapsed : Q) : Eff unit :=
  let animationDone := Qgeb clampedElapsed totalAnimationTime in
  when animationDone
    (on_cake (position_set 0 CAKE_END_Y 0) ;;
     on_cake (rotation_set 0 0 0) ;;
     on_table (position_set 0 0 TABLE_END_Z) ;;
     on_candle (position_set 0 CANDLE_END_Y 0) ;;
     on_candle (set_visible true) ;;
     emitBackgroundOpacity 0 ;;
     emitEnvironmentProgress 1 ;;
     set_hasCompletedRef true ;;
     notifyCompletion).

(** Lines 202-276. *)
Definition playingBranch (elapsedTime : Q) : Eff unit :=
  start <- startClock elapsedTime ;;
  let clampedElapsed := clampedElapsedFrom start elapsedTime in
  cakeSegment clampedElapsed ;;
  tableSegment clampedElapsed ;;
  candleSegment clampedElapsed ;;
  backgroundFade clampedElapsed ;;
  terminalCheck clampedElapsed.

(** Lines 173-276: the callback once the three groups are known to be
    mounted. *)
Definition frame (isPlaying : bool) (elapsedTime : Q) : Eff unit :=
  primed <- read hasPrimedRef ;;
  when (negb primed) prime ;;
  if negb isPlaying then pauseBranch
  else
    completed <- read hasCompletedRef ;;
    if completed then completedBranch
    else playingBranch elapsedTime.

(** The component instance: the three group refs, null until mounted, and
    the controller refs. *)
Record World : Type := mkWorld {
  cakeGroup : option Group;
  tableGroup : option Group;
  candleGroup : option Group;
  controller : Refs
}.

Definition mounted (sc : Scene) (r : Refs) : World :=
  mkWorld (Some (cake sc)) (Some (table sc)) (Some (candle sc)) r.

(** Lines 164-277: [useFrame(({ clock }) => ...)], with [isPlaying] the prop
    of this render and [elapsedTime] the value of [clock.elapsedTime]. *)
Definition useFrame (isPlaying : bool) (elapsedTime : Q) (w : World)
  : World * list Action :=
  match cakeGroup w, tableGroup w, candleGroup w with
  | Some c, Some t, Some k =>
      let '(_, s, tr) :=
        frame isPlaying elapsedTime (mkFrame (mkScene c t k) (controller w)) in
      (mounted (scene s) (refs s), tr)
  | _, _, _ => (w, [])
  end.

(** A run of ticks: each is the pair of the [isPlaying] prop and the clock. *)
Fixpoint ticks (inputs : list (bool * Q)) (w : World) : World * list Action :=
  match inputs with
  | [] => (w, [])
  | (isPlaying, elapsedTime) :: rest =>
      let '(w1, t1) := useFrame isPlaying elapsedTime w in
      let '(w2, t2) := ticks rest w1 in
      (w2, t1 ++ t2)
  end.

Definition freshScene : Scene := mkScene newGroup newGroup newGroup.

(** The world a component starts in: fresh groups, initial refs. *)
Definition initialWorld : World := mounted freshScene initialRefs.

(** ** Views of a trace *)

Definition is_completion (a : Action) : bool :=
  match a with onAnimationComplete => true | _ => false end.

Definition is_request (a : Action) : bool :=
  match a with
  | call_emitBackgroundOpacity _ | call_emitEnvironmentProgress _ => true
  | _ => false
  end.

(** How often the completion callback was invoked. *)
Definition completions (tr : list Action) : nat :=
  List.length (filter is_completion tr).

(** The calls of the emit helpers, in order: the signal values computed. *)
Definition requests (tr : list Action) : list Action := filter is_request tr.

(** ** The typed-text intro of [App] (lines 82-93 and 551-625)

    [TYPED_LINES] is a parameter of the section: the sequencer reads the
    constant only through its length, its lines and their lengths.  A line
    is a [string] with one character per UTF-16 code unit, so that
    [String.length] is the [length] of the source.  Of the state of [App]
    the record keeps the four variables the typing effect reads. *)

Definition TYPED_CHAR_DELAY : nat := 100.
Definition POST_TYPING_SCENE_DELAY : nat := 1000.

Record Intro : Type := mkIntro {
  hasStarted : bool;
  sceneStarted : bool;
  currentLineIndex : nat;
  currentCharIndex : nat
}.

Inductive Sound : Type := playTypingSound.

(** What one run of the typing effect leaves armed. *)
Inductive Timer : Type :=
| NoTimer
| SceneStartTimer (delay : nat)
| TypingTimer (delay : nat).

Section TypedText.

Variable TYPED_LINES : list string.

(** Line 551. *)
Definition typingComplete (s : Intro) : bool :=
  List.length TYPED_LINES <=? currentLineIndex s.

(** Lines 552-566. *)
Definition typedLines (s : Intro) : list string :=
  if (List.length TYPED_LINES =? 0)%nat then [EmptyString]
  else
    map (fun '(index, line) =>
           if typingComplete s || (index <? currentLineIndex s) then line
           else if (index =? currentLineIndex s)%nat then
             substring 0 (Nat.min (currentCharIndex s) (String.length line)) line
           else EmptyString)
        (combine (seq 0 (List.length TYPED_LINES)) TYPED_LINES).

(** Lines 568-574. *)
Definition cursorLineIndex (s : Intro) : nat :=
  if typingComplete s then Nat.max (List.length (typedLines s) - 1) 0
  else currentLineIndex s.

Definition cursorTargetIndex (s : Intro) : nat :=
  Nat.max (Nat.min (cursorLineIndex s) (List.length (typedLines s) - 1)) 0.

(** Lines 606-611: the loop that steps over zero-length lines.  Each turn
    moves [nextLineIndex] up by one and the loop stops at the latest at the
    length of [TYPED_LINES], so that many turns of [fuel] are enough. *)
Fixpoint skipEmptyLines (fuel nextLineIndex : nat) : nat :=
  match fuel with
  | O => nextLineIndex
  | S fuel' =>
      if (nextLineIndex <? List.length TYPED_LINES) &&
         (String.length (nth nextLineIndex TYPED_LINES EmptyString) =? 0)%nat
      then skipEmptyLines fuel' (S nextLineIndex)
      else nextLineIndex
  end.

(** Lines 597-615: the callback of the typing timer. *)
Definition typingTimeout (s : Intro) : Intro * list Sound :=
  let currentLine := nth (currentLineIndex s) TYPED_LINES EmptyString in
  if currentCharIndex s <? String.length currentLine then
    (mkIntro (hasStarted s) (sceneStarted s) (currentLineIndex s)
             (currentCharIndex s + 1),
     [playTypingSound])
  else
    let nextLineIndex :=
      skipEmptyLines (List.length TYPED_LINES) (currentLineIndex s + 1) in
    (mkIntro (hasStarted s) (sceneStarted s) nextLineIndex 0, []).

(** Lines 576-617: the effect itself, run after each state change. *)
Definition typingEffect (s : Intro) : Intro * Timer :=
  if negb (hasStarted s) then (mkIntro (hasStarted s) false 0 0, NoTimer)
  else if typingComplete s then
    if negb (sceneStarted s) then (s, SceneStartTimer POST_TYPING_SCENE_DELAY)
    else (s, NoTimer)
  else (s, TypingTimer TYPED_CHAR_DELAY).

(** The state after the armed timer, if any, has fired. *)
Definition timerFires (s : Intro) : Intro :=
  match typingEffect s with
  | (s', NoTimer) => s'
  | (s', SceneStartTimer _) =>
      mkIntro (hasStarted s') true (currentLineIndex s') (currentCharIndex s')
  | (s', TypingTimer _) => fst (typingTimeout s')
  end.

End TypedText.

(** ** Views used in the statements

    Names for parts of what the frame callback computes, so that its result
    can be written down branch by branch; the closed-form lemmas below tie
    each of them to [frame]. *)

(** Whether an emit of [value] passes the deadband against the value [last]
    emitted before: the test of lines 150 and 158. *)
Definition forwards (last value : Q) : bool :=
  Qgtb (Qabs (clamp value 0 1 - last)) DEADBAND.

(** The pose priming leaves (lines 174-179): what it does not write, the
    visibility of the cake and the table and the rotation of the candle, is
    kept. *)
Definition startPose (sc : Scene) : Scene :=
  mkScene
    (mkGroup (vec3 0 CAKE_START_Y 0) (vec3 0 0 0) (visible (cake sc)))
    (mkGroup (vec3 0 0 TABLE_START_Z) (vec3 0 0 0) (visible (table sc)))
    (mkGroup (vec3 0 CANDLE_START_Y 0) (rotation (candle sc)) false).

(** The pair of signal values the fade block computes (lines 247-259). *)
Definition fadeOpacity (clampedElapsed : Q) : Q :=
  if Qltb clampedElapsed BACKGROUND_FADE_START then 1
  else 1 - easeOutCubic
             (clamp ((clampedElapsed - BACKGROUND_FADE_START)
                     / BACKGROUND_FADE_DURATION) 0 1).

Definition fadeProgress (clampedElapsed : Q) : Q :=
  if Qltb clampedElapsed BACKGROUND_FADE_START then 0
  else 1 - fadeOpacity clampedElapsed.

(** [carries o p a]: if the action [a] passes an opacity, it is [o]; if it
    passes a progress, it is [p]. *)
Definition carries (o p : Q) (a : Action) : Prop :=
  match a with
  | call_emitBackgroundOpacity v | onBackgroundFadeChange v => v == o
  | call_emitEnvironmentProgress v | onEnvironmentProgressChange v => v == p
  | onAnimationComplete => True
  end.

(** The opacities and the progresses the emit helpers were called with. *)
Fixpoint opacities (tr : list Action) : list Q :=
  match tr with
  | [] => []
  | call_emitBackgroundOpacity v :: rest => v :: opacities rest
  | _ :: rest => opacities rest
  end.

Fixpoint progresses (tr : list Action) : list Q :=
  match tr with
  | [] => []
  | call_emitEnvironmentProgress v :: rest => v :: progresses rest
  | _ :: rest => progresses rest
  end.

(** The two stored signals sum to 1. *)
Definition complementary (r : Refs) : Prop :=
  backgroundOpacityRef r + environmentProgressRef r == 1.

(** The refs at the start of a play session, and the refs once a session
    has completed and told its consumer. *)
Definition fresh_session (r : Refs) : Prop :=
  hasCompletedRef r = false /\ completionNotifiedRef r = false.

Definition at_rest (r : Refs) : Prop :=
  hasCompletedRef r = true /\ completionNotifiedRef r = true /\
  hasPrimedRef r = true /\
  Qabs (0 - backgroundOpacityRef r) <= DEADBAND /\
  Qabs (1 - environmentProgressRef r) <= DEADBAND.

(** A session of playing ticks at the given clock values. *)
Definition playing (clocks : list Q) : list (bool * Q) :=
  map (fun elapsedTime => (true, elapsedTime)) clocks.

(** What an emit leaves stored, and the part of the trace it writes. *)
Definition stored (last value : Q) : Q :=
  if forwards last value then clamp value 0 1 else last.

Definition opacityTrace (last value : Q) : list Action :=
  call_emitBackgroundOpacity value ::
  (if forwards last value then [onBackgroundFadeChange (clamp value 0 1)] else []).

Definition progressTrace (last value : Q) : list Action :=
  call_emitEnvironmentProgress value ::
  (if forwards last value then [onEnvironmentProgressChange (clamp value 0 1)] else []).

(** The start time a playing tick works with (lines 202-204). *)
Definition startOf (r : Refs) (elapsedTime : Q) : Q :=
  match animationStartRef r with
  | Some t0 => t0
  | None => elapsedTime
  end.

(** The clamped elapsed time of a playing tick (lines 206-207). *)
Definition clampedElapsedOf (r : Refs) (elapsedTime : Q) : Q :=
  clampedElapsedFrom (startOf r elapsedTime) elapsedTime.

(** The scene the blocks of a playing tick write before the terminal check
    (lines 209-245), over the scene [sc] they find. *)
Definition segmentPose (clampedElapsed : Q) (sc : Scene) : Scene :=
  let cakeEase :=
    easeOutCubic (clamp (clampedElapsed / CAKE_DESCENT_DURATION) 0 1) in
  mkScene
    (mkGroup (vec3 0 (lerp CAKE_START_Y CAKE_END_Y cakeEase) 0)
             (vec3 0 (cakeEase * Math_PI * 2) 0)
             (visible (cake sc)))
    (mkGroup
       (vec3 0 0
          (if Qgeb clampedElapsed TABLE_SLIDE_START then
             lerp TABLE_START_Z TABLE_END_Z
               (easeOutCubic
                  (clamp ((clampedElapsed - TABLE_SLIDE_START)
                          / TABLE_SLIDE_DURATION) 0 1))
           else TABLE_START_Z))
       (vec3 0 0 0)
       (visible (table sc)))
    (if Qgeb clampedElapsed CANDLE_DROP_START then
       mkGroup
         (vec3 (x (position (candle sc)))
               (lerp CANDLE_START_Y CANDLE_END_Y
                  (easeOutCubic
                     (clamp ((clampedElapsed - CANDLE_DROP_START)
                             / CANDLE_DROP_DURATION) 0 1)))
               (z (position (candle sc))))
         (rotation (candle sc)) true
     else mkGroup (vec3 0 CANDLE_START_Y 0) (rotation (candle sc)) false).

(** What the terminal check writes (lines 264-268) over the scene [sc] it
    finds: the rotation of the table is not among its writes. *)
Definition snapPose (sc : Scene) : Scene :=
  mkScene
    (mkGroup (vec3 0 CAKE_END_Y 0) (vec3 0 0 0) (visible (cake sc)))
    (mkGroup (vec3 0 0 TABLE_END_Z) (rotation (table sc)) (visible (table sc)))
    (mkGroup (vec3 0 CANDLE_END_Y 0) (rotation (candle sc)) true).

(** The pose a playing tick ends in when its terminal check fires: the
    table was unrotated by the table block of the same tick (line 229). *)
Definition endPose (sc : Scene) : Scene :=
  mkScene
    (mkGroup (vec3 0 CAKE_END_Y 0) (vec3 0 0 0) (visible (cake sc)))
    (mkGroup (vec3 0 0 TABLE_END_Z) (vec3 0 0 0) (visible (table sc)))
    (mkGroup (vec3 0 CANDLE_END_Y 0) (rotation (candle sc)) true).

(** ** Further views of a trace and of the refs *)

(** A run of ticks with [isPlaying = false]. *)
Definition paused (clocks : list Q) : list (bool * Q) :=
  map (fun elapsedTime => (false, elapsedTime)) clocks.

(** The consumers of the two signal callbacks are the state setters of
    [App] (lines 393-394 and 875-876): after a trace [App] holds the value
    of the last callback, or the value it held before when there was none. *)
Fixpoint lastOpacity (held : Q) (tr : list Action) : Q :=
  match tr with
  | [] => held
  | onBackgroundFadeChange v :: rest => lastOpacity v rest
  | _ :: rest => lastOpacity held rest
  end.

Fixpoint lastProgress (held : Q) (tr : list Action) : Q :=
  match tr with
  | [] => held
  | onEnvironmentProgressChange v :: rest => lastProgress v rest
  | _ :: rest => lastProgress held rest
  end.

(** Each value handed to a consumer is more than the deadband away from the
    value handed over before it, starting from [held]. *)
Fixpoint opacityGaps (held : Q) (tr : list Action) : Prop :=
  match tr with
  | [] => True
  | onBackgroundFadeChange v :: rest =>
      DEADBAND < Qabs (v - held) /\ opacityGaps v rest
  | _ :: rest => opacityGaps held rest
  end.

Fixpoint progressGaps (held : Q) (tr : list Action) : Prop :=
  match tr with
  | [] => True
  | onEnvironmentProgressChange v :: rest =>
      DEADBAND < Qabs (v - held) /\ progressGaps v rest
  | _ :: rest => progressGaps held rest
  end.

(** A value handed to a consumer lies between 0 and 1. *)
Definition in_unit (a : Action) : Prop :=
  match a with
  | onBackgroundFadeChange v | onEnvironmentProgressChange v => 0 <= v <= 1
  | _ => True
  end.

Definition is_callback (a : Action) : bool :=
  match a with
  | onBackgroundFadeChange _ | onEnvironmentProgressChange _
  | onAnimationComplete => true
  | _ => false
  end.

(** Over the trace [tr] the consumers go from holding [b] and [e] to
    holding [b'] and [e'], by steps larger than the deadband. *)
Definition synced (b e : Q) (tr : list Action) (b' e' : Q) : Prop :=
  lastOpacity b tr = b' /\ lastProgress e tr = e' /\
  opacityGaps b tr /\ progressGaps e tr.

(** The refs of a primed controller that has been paused and has told its
    consumers so. *)
Definition idle (r : Refs) : Prop :=
  animationStartRef r = None /\ hasPrimedRef r = true /\
  hasCompletedRef r = false /\ completionNotifiedRef r = false /\
  Qabs (1 - backgroundOpacityRef r) <= DEADBAND /\
  Qabs (0 - environmentProgressRef r) <= DEADBAND.

(** ** What is left to type (a measure on the intro) *)

(** A line costs one timer per character and one more to leave it. *)
Definition linesCost (L : list string) : nat :=
  list_sum (map (fun l => S (String.length l)) L).

Definition typingLeft (L : list string) (s : Intro) : nat :=
  if currentLineIndex s <? List.length L then
    linesCost (skipn (currentLineIndex s) L)
    - Nat.min (currentCharIndex s)
              (String.length (nth (currentLineIndex s) L EmptyString))
  else 0.

Definition introLeft (L : list string) (s : Intro) : nat :=
  typingLeft L s + (if sceneStarted s then 0 else 1).

(** ** The camera-error terminal of [App] (lines 95-105 and 659-778)

    The same sequencer over its own lines, with a pause after each line
    taken from a table.  The lines and the table are parameters of the
    section.  The blink interval of lines 753-762, which only toggles
    [terminalCursorVisible], is left out. *)

Definition TERMINAL_CHAR_DELAY : nat := 50.

Record Terminal : Type := mkTerminal {
  showCameraModal : bool;
  terminalTypingComplete : bool;
  terminalLineIndex : nat;
  terminalCharIndex : nat;
  terminalCursorVisible : bool;
  bodyOverflow : string
}.

(** The states [useState] starts the modal in (lines 403-407); the page
    starts with no inline [overflow] style. *)
Definition closedTerminal : Terminal :=
  mkTerminal false false 0 0 true EmptyString.


Inductive TerminalTimer : Type :=
| NoTerminalTimer
| LineTimer (delay : nat)
| CharTimer (delay : nat).




Section TerminalText.

Variable TERMINAL_LINES : list string.
Variable TERMINAL_LINE_DELAYS : list nat.

(** Lines 683-697. *)
Definition terminalTypedLines (s : Terminal) : list string :=
  if (List.length TERMINAL_LINES =? 0)%nat then [EmptyString]
  else
    map (fun '(index, line) =>
           if terminalTypingComplete s || (index <? terminalLineIndex s) then line
           else if (index =? terminalLineIndex s)%nat then
             substring 0 (Nat.min (terminalCharIndex s) (String.length line)) line
           else EmptyString)
        (combine (seq 0 (List.length TERMINAL_LINES)) TERMINAL_LINES).

(** Lines 699-705. *)
Definition terminalCursorLineIndex (s : Terminal) : nat :=
  if terminalTypingComplete s
  then Nat.max (List.length (terminalTypedLines s) - 1) 0
  else terminalLineIndex s.

Definition terminalCursorTargetIndex (s : Terminal) : nat :=
  Nat.max
    (Nat.min (terminalCursorLineIndex s) (List.length (terminalTypedLines s) - 1))
    0.

(** Lines 708-745: the timer the effect arms. *)
Definition terminalEffect (s : Terminal) : TerminalTimer :=
  if negb (showCameraModal s) || terminalTypingComplete s then NoTerminalTimer
  else
    let currentLine := nth (terminalLineIndex s) TERMINAL_LINES EmptyString in
    if String.length currentLine <=? terminalCharIndex s then
      LineTimer (nth (terminalLineIndex s) TERMINAL_LINE_DELAYS 800%nat)
    else CharTimer TERMINAL_CHAR_DELAY.

(** Lines 718-733: the callback of the line pause. *)
Definition terminalLineTimeout (s : Terminal) : Terminal :=
  let nextLineIndex :=
    skipEmptyLines TERMINAL_LINES (List.length TERMINAL_LINES)
      (terminalLineIndex s + 1) in
  if List.length TERMINAL_LINES <=? nextLineIndex then
    mkTerminal (showCameraModal s) true (terminalLineIndex s)
      (terminalCharIndex s) (terminalCursorVisible s) (bodyOverflow s)
  else
    mkTerminal (showCameraModal s) (terminalTypingComplete s) nextLineIndex 0
      (terminalCursorVisible s) (bodyOverflow s).

(** Lines 739-742: the callback of the character timer. *)
Definition terminalCharTimeout (s : Terminal) : Terminal * list Sound :=
  (mkTerminal (showCameraModal s) (terminalTypingComplete s)
     (terminalLineIndex s) (terminalCharIndex s + 1)
     (terminalCursorVisible s) (bodyOverflow s),
   [playTypingSound]).

(** The state after the armed timer, if any, has fired. *)
Definition terminalTimerFires (s : Terminal) : Terminal :=
  match terminalEffect s with
  | NoTerminalTimer => s
  | LineTimer _ => terminalLineTimeout s
  | CharTimer _ => fst (terminalCharTimeout s)
  end.

(** What is left to type in the terminal. *)
Definition terminalLeft (s : Terminal) : nat :=
  if negb (showCameraModal s) || terminalTypingComplete s then 0
  else
    linesCost (skipn (terminalLineIndex s) TERMINAL_LINES)
    - Nat.min (terminalCharIndex s)
        (String.length (nth (terminalLineIndex s) TERMINAL_LINES EmptyString))
    + 1.

End TerminalText.

(** ** Keys, candle and cards (lines 634-657 and 877) *)

Module Interaction.

Record State : Type := mkState {
  hasStarted : bool;
  hasAnimationCompleted : bool;
  isCandleLit : bool;
  fireworksActive : bool
}.

(** The values [useState] gives (lines 392-401); the reset of lines 577-584
    writes the same values and runs only while [hasStarted] is false. *)
Definition initial : State := mkState false false true false.

Record KeyboardEvent : Type := mkKey { code : string; key : string }.

Inductive Call : Type := preventDefault | playBackgroundMusic.

(** Lines 635-649. *)
Definition handleKeyDown (event : KeyboardEvent) (s : State)
  : State * list Call :=
  if negb (code event =? "Space")%string && negb (key event =? " ")%string
  then (s, [])
  else if negb (hasStarted s) then
    (mkState true (hasAnimationCompleted s) (isCandleLit s) (fireworksActive s),
     [preventDefault; playBackgroundMusic])
  else if hasAnimationCompleted s && isCandleLit s then
    (mkState (hasStarted s) (hasAnimationCompleted s) false true,
     [preventDefault])
  else (s, [preventDefault]).

(** Line 877: the completion callback [App] passes to the scene. *)
Definition handleAnimationComplete (s : State) : State :=
  mkState (hasStarted s) true (isCandleLit s) (fireworksActive s).

Inductive Event : Type :=
| KeyDown (event : KeyboardEvent)
| AnimationComplete.

Definition step (e : Event) (s : State) : State * list Call :=
  match e with
  | KeyDown event => handleKeyDown event s
  | AnimationComplete => (handleAnimationComplete s, [])
  end.

Fixpoint run (events : list Event) (s : State) : State * list Call :=
  match events with
  | [] => (s, [])
  | e :: rest =>
      let '(s1, c1) := step e s in
      let '(s2, c2) := run rest s1 in
      (s2, c1 ++ c2)
  end.

Definition is_music (c : Call) : bool :=
  match c with playBackgroundMusic => true | _ => false end.

(** Lines 655-657: [setActiveCardId(current => current === id ? null : id)]. *)
Definition handleCardToggle (id : string) (current : option string)
  : option string :=
  match current with
  | Some c => if (c =? id)%string then None else Some id
  | None => Some id
  end.

End Interaction.

(** ** The background music (lines 484-549)

    Of the audio element the model keeps the volume and the paused flag.
    [play()] is taken to succeed; the position in the track is left out. *)

Module Audio.

Record Element : Type := mkElement { volume : Q; paused : bool }.

Inductive TimerState : Type := NotArmed | Running | Cleared.

(** [setInterval(callback, ...)] observed for [n] periods: the callback runs
    each period until it clears its own timer; the flag says whether it
    has. *)
Fixpoint setInterval (callback : Element -> Element * bool) (n : nat)
  (a : Element) : Element * bool :=
  match n with
  | O => (a, false)
  | S n' =>
      let '(a', cleared) := callback a in
      if cleared then (a', true) else setInterval callback n' a'
  end.

(** Lines 484-497. *)
Definition playBackgroundMusic (ref : option Element) : option Element :=
  match ref with
  | None => None
  | Some a => if negb (paused a) then Some a else Some (mkElement 1.0 false)
  end.

(** Lines 510-518: the interval callback of the fade-out. *)
Definition fadeOutTick (volumeStep : Q) (a : Element) : Element * bool :=
  if Qgtb (volume a) 0.1 then
    (mkElement (Qmax 0 (volume a - volumeStep)) (paused a), false)
  else (mkElement 0 true, true).

(** Lines 499-519, with the interval observed for [n] periods. *)
Definition fadeOutMusic (n : nat) (ref : option Element)
  : option Element * TimerState :=
  match ref with
  | None => (None, NotArmed)
  | Some a =>
      if paused a then (Some a, NotArmed)
      else
        let fadeSteps := 20 in
        let volumeStep := volume a / fadeSteps in
        let '(a', cleared) := setInterval (fadeOutTick volumeStep) n a in
        (Some a', if cleared then Cleared else Running)
  end.

(** Lines 541-548: the interval callback of the fade-in. *)
Definition fadeInTick (a : Element) : Element * bool :=
  let fadeSteps := 20 in
  let targetVolume := 1.0 in
  let volumeStep := targetVolume / fadeSteps in
  if Qltb (volume a) (targetVolume - 0.05) then
    (mkElement (Qmin targetVolume (volume a + volumeStep)) (paused a), false)
  else (mkElement targetVolume (paused a), true).

(** Lines 521-549, with the interval observed for [n] periods. *)
Definition fadeInMusic (n : nat) (ref : option Element)
  : option Element * TimerState :=
  match ref with
  | None => (None, NotArmed)
  | Some a =>
      let a1 := if paused a then mkElement 0 false else a in
      let '(a', cleared) := setInterval fadeInTick n a1 in
      (Some a', if cleared then Cleared else Running)
  end.

End Audio.

#[global] Arguments clamp : simpl never.
#[global] Arguments lerp : simpl never.
#[global] Arguments easeOutCubic : simpl never.
#[global] Arguments clampedElapsedFrom : simpl never.
#[global] Arguments Qgeb : simpl never.
#[global] Arguments Qltb : simpl never.
#[global] Arguments Qgtb : simpl never.
#[global] Arguments forwards : simpl never.
#[global] Arguments fadeOpacity : simpl never.
#[global] Arguments fadeProgress : simpl never.

(** ** Basic facts on comparisons, [clamp] and [easeOutCubic] *)

Lemma Qgeb_true (a b : Q) : Qgeb a b = true <-> b <= a.
Proof. unfold Qgeb. apply Qle_bool_iff. Qed.

Lemma Qgeb_false (a b : Q) : Qgeb a b = false <-> a < b.
Proof.
  unfold Qgeb. split; intro H.
  - apply Qnot_le_lt. intro L. apply Qle_bool_iff in L. congruence.
  - destruct (Qle_bool b a) eqn:E; [|reflexivity].
    apply Qle_bool_iff in E. lra.
Qed.

Lemma Qltb_true (a b : Q) : Qltb a b = true <-> a < b.
Proof.
  unfold Qltb. rewrite negb_true_iff. apply Qgeb_false.
Qed.

Lemma Qltb_false (a b : Q) : Qltb a b = false <-> b <= a.
Proof.
  unfold Qltb. rewrite negb_false_iff. apply Qgeb_true.
Qed.

Lemma Qgtb_true (a b : Q) : Qgtb a b = true <-> b < a.
Proof. apply (Qltb_true b a). Qed.

Lemma Qgtb_false (a b : Q) : Qgtb a b = false <-> a <= b.
Proof. apply (Qltb_false b a). Qed.

Lemma clamp_cases (v lo hi : Q) :
  lo <= hi ->
  (v <= lo /\ clamp v lo hi == lo) \/
  (lo <= v <= hi /\ clamp v lo hi == v) \/
  (hi <= v /\ clamp v lo hi == hi).
Proof.
  intro H. unfold clamp.
  destruct (Q.max_spec lo v) as [[A B]|[A B]];
    destruct (Q.min_spec hi (Qmax lo v)) as [[C D]|[C D]];
    rewrite D; rewrite B in *.
  - right; right. split; [lra | reflexivity].
  - right; left. split; [lra | reflexivity].
  - lra.
  - left. split; [lra | reflexivity].
Qed.

Lemma clamp_range (v lo hi : Q) : lo <= hi -> lo <= clamp v lo hi <= hi.
Proof. intro H. destruct (clamp_cases v lo hi H) as [[A B]|[[A B]|[A B]]]; lra. Qed.

Lemma clamp_mono (v1 v2 lo hi : Q) :
  lo <= hi -> v1 <= v2 -> clamp v1 lo hi <= clamp v2 lo hi.
Proof.
  intros H L.
  destruct (clamp_cases v1 lo hi H) as [[A B]|[[A B]|[A B]]];
    destruct (clamp_cases v2 lo hi H) as [[C D]|[[C D]|[C D]]]; lra.
Qed.

#[global] Instance clamp_Proper : Proper (Qeq ==> Qeq ==> Qeq ==> Qeq) clamp.
Proof. intros a b E c d F e f G. unfold clamp. now rewrite E, F, G. Qed.

#[global] Instance easeOutCubic_Proper : Proper (Qeq ==> Qeq) easeOutCubic.
Proof. intros a b E. unfold easeOutCubic. now rewrite E. Qed.

#[global] Instance lerp_Proper : Proper (Qeq ==> Qeq ==> Qeq ==> Qeq) lerp.
Proof. intros a b E c d F e f G. unfold lerp. now rewrite E, F, G. Qed.

Lemma cube_expand (u : Q) : u ^ 3 == u * u * u.
Proof. simpl. field. Qed.

Lemma easeOutCubic_range (t : Q) : 0 <= t <= 1 -> 0 <= easeOutCubic t <= 1.
Proof.
  intros [A B]. unfold easeOutCubic. rewrite cube_expand.
  assert (0 <= (1 - t) * (1 - t)) by nra.
  assert ((1 - t) * (1 - t) <= 1) by nra.
  split; nra.
Qed.

Lemma easeOutCubic_mono (s t : Q) :
  0 <= s -> s <= t -> t <= 1 -> easeOutCubic s <= easeOutCubic t.
Proof.
  intros A B C. unfold easeOutCubic. rewrite !cube_expand.
  assert (0 <= (1 - t)) by lra.
  assert ((1 - t) <= (1 - s)) by lra.
  assert ((1 - t) * (1 - t) <= (1 - s) * (1 - s)) by nra.
  assert (0 <= (1 - t) * (1 - t)) by nra.
  nra.
Qed.

Lemma easeOutCubic_0 : easeOutCubic 0 == 0.
Proof. reflexivity. Qed.

Lemma easeOutCubic_1 : easeOutCubic 1 == 1.
Proof. reflexivity. Qed.

(** ** The emit helpers in closed form *)

Lemma emitBackgroundOpacity_run (value : Q) (s : Frame) :
  emitBackgroundOpacity value s =
  (tt,
   mkFrame (scene s)
     (mkRefs (animationStartRef (refs s)) (hasPrimedRef (refs s))
        (hasCompletedRef (refs s)) (completionNotifiedRef (refs s))
        (if forwards (backgroundOpacityRef (refs s)) value
         then clamp value 0 1 else backgroundOpacityRef (refs s))
        (environmentProgressRef (refs s))),
   call_emitBackgroundOpacity value ::
     (if forwards (backgroundOpacityRef (refs s)) value
      then [onBackgroundFadeChange (clamp value 0 1)] else [])).
Proof.
  destruct s as [sc [a p c n b e]].
  unfold emitBackgroundOpacity, bind, call, read, when, forwards; cbn.
  destruct (Qgtb _ _); reflexivity.
Qed.

Lemma emitEnvironmentProgress_run (value : Q) (s : Frame) :
  emitEnvironmentProgress value s =
  (tt,
   mkFrame (scene s)
     (mkRefs (animationStartRef (refs s)) (hasPrimedRef (refs s))
        (hasCompletedRef (refs s)) (completionNotifiedRef (refs s))
        (backgroundOpacityRef (refs s))
        (if forwards (environmentProgressRef (refs s)) value
         then clamp value 0 1 else environmentProgressRef (refs s))),
   call_emitEnvironmentProgress value ::
     (if forwards (environmentProgressRef (refs s)) value
      then [onEnvironmentProgressChange (clamp value 0 1)] else [])).
Proof.
  destruct s as [sc [a p c n b e]].
  unfold emitEnvironmentProgress, bind, call, read, when, forwards; cbn.
  destruct (Qgtb _ _); reflexivity.
Qed.

#[global] Opaque emitBackgroundOpacity emitEnvironmentProgress.

Lemma forwards_true (last value : Q) :
  forwards last value = true <-> DEADBAND < Qabs (clamp value 0 1 - last).
Proof. apply Qgtb_true. Qed.

Lemma forwards_false (last value : Q) :
  forwards last value = false <-> Qabs (clamp value 0 1 - last) <= DEADBAND.
Proof. apply Qgtb_false. Qed.

Lemma useFrame_mounted (isPlaying : bool) (elapsedTime : Q) (sc : Scene) (r : Refs) :
  useFrame isPlaying elapsedTime (mounted sc r) =
  (mounted (scene (snd (fst (frame isPlaying elapsedTime (mkFrame sc r)))))
           (refs (snd (fst (frame isPlaying elapsedTime (mkFrame sc r))))),
   snd (frame isPlaying elapsedTime (mkFrame sc r))).
Proof.
  destruct sc as [c t k]. unfold useFrame, mounted.
  cbn [cakeGroup tableGroup candleGroup controller cake table candle].
  destruct (frame isPlaying elapsedTime _) as [[u s] tr]. reflexivity.
Qed.

Lemma candleSegment_run (clampedElapsed : Q) (s : Frame) :
  candleSegment clampedElapsed s =
  (tt,
   mkFrame
     (mkScene (cake (scene s)) (table (scene s))
        (if Qgeb clampedElapsed CANDLE_DROP_START then
           mkGroup
             (vec3 (x (position (candle (scene s))))
                   (lerp CANDLE_START_Y CANDLE_END_Y
                      (easeOutCubic
                         (clamp ((clampedElapsed - CANDLE_DROP_START)
                                 / CANDLE_DROP_DURATION) 0 1)))
                   (z (position (candle (scene s)))))
             (rotation (candle (scene s))) true
         else
           mkGroup (vec3 0 CANDLE_START_Y 0) (rotation (candle (scene s))) false))
     (refs s),
   []).
Proof.
  destruct s as [[c t [kp kr kv]] r]. unfold candleSegment.
  destruct (Qgeb clampedElapsed CANDLE_DROP_START); [|reflexivity].
  destruct kv; reflexivity.
Qed.

Lemma backgroundFade_run (clampedElapsed : Q) (s : Frame) :
  backgroundFade clampedElapsed s =
  (emitBackgroundOpacity (fadeOpacity clampedElapsed) ;;
   emitEnvironmentProgress (fadeProgress clampedElapsed)) s.
Proof.
  unfold backgroundFade, fadeProgress, fadeOpacity.
  destruct (Qltb clampedElapsed BACKGROUND_FADE_START); reflexivity.
Qed.

Lemma terminalCheck_done (clampedElapsed : Q) (s : Frame) :
  Qgeb clampedElapsed totalAnimationTime = true ->
  terminalCheck clampedElapsed s =
  (tt,
   mkFrame (snapPose (scene s))
     (mkRefs (animationStartRef (refs s)) (hasPrimedRef (refs s)) true true
        (stored (backgroundOpacityRef (refs s)) 0)
        (stored (environmentProgressRef (refs s)) 1)),
   opacityTrace (backgroundOpacityRef (refs s)) 0 ++
   progressTrace (environmentProgressRef (refs s)) 1 ++
   (if completionNotifiedRef (refs s) then [] else [onAnimationComplete])).
Proof.
  intro E. destruct s as [[c t k] [a p d n b e]].
  unfold terminalCheck. rewrite E.
  unfold when, notifyCompletion, bind, read, when, stored, opacityTrace,
    progressTrace, snapPose; cbn.
  rewrite emitBackgroundOpacity_run; cbn.
  rewrite emitEnvironmentProgress_run; cbn.
  destruct n; cbn; rewrite ?app_nil_r; reflexivity.
Qed.

Lemma terminalCheck_not_done (clampedElapsed : Q) (s : Frame) :
  Qgeb clampedElapsed totalAnimationTime = false ->
  terminalCheck clampedElapsed s = (tt, s, []).
Proof. intro E. unfold terminalCheck. rewrite E. reflexivity. Qed.

Lemma segments_run (clampedElapsed : Q) (s : Frame) (k : Eff unit) :
  (cakeSegment clampedElapsed ;; tableSegment clampedElapsed ;;
   candleSegment clampedElapsed ;; k) s =
  k (mkFrame (segmentPose clampedElapsed (scene s)) (refs s)).
Proof.
  destruct s as [[c t [kp kr kv]] r].
  unfold cakeSegment, tableSegment, bind; cbn.
  rewrite candleSegment_run; cbn. unfold segmentPose; cbn.
  destruct (k _) as [[u s'] tr]. reflexivity.
Qed.

Lemma notifyCompletion_run (s : Frame) :
  notifyCompletion s =
  (tt,
   mkFrame (scene s)
     (mkRefs (animationStartRef (refs s)) (hasPrimedRef (refs s))
        (hasCompletedRef (refs s)) true
        (backgroundOpacityRef (refs s)) (environmentProgressRef (refs s))),
   if completionNotifiedRef (refs s) then [] else [onAnimationComplete]).
Proof.
  destruct s as [sc [a p c n b e]].
  unfold notifyCompletion, bind, read, when; cbn.
  destruct n; reflexivity.
Qed.

#[global] Opaque candleSegment backgroundFade notifyCompletion terminalCheck
  cakeSegment.

Lemma clamp_1_0_1 : clamp 1 0 1 = 1.
Proof. reflexivity. Qed.

Lemma clamp_0_0_1 : clamp 0 0 1 = 0.
Proof. reflexivity. Qed.

Ltac emit_step :=
  repeat (first [ rewrite emitBackgroundOpacity_run
                | rewrite emitEnvironmentProgress_run
                | rewrite candleSegment_run
                | rewrite notifyCompletion_run
                | rewrite backgroundFade_run; unfold bind at 1 ]; cbn);
  rewrite ?clamp_1_0_1, ?clamp_0_0_1.

Ltac split_tests :=
  repeat match goal with
         | |- context [forwards ?a ?v] => destruct (forwards a v); cbn
         end.

(** ** The frame callback in closed form, branch by branch *)

Lemma frame_paused (elapsedTime : Q) (sc : Scene) (r : Refs) :
  frame false elapsedTime (mkFrame sc r) =
  (tt,
   mkFrame (if hasPrimedRef r then sc else startPose sc)
     (mkRefs None true false false
        (stored (backgroundOpacityRef r) 1)
        (stored (environmentProgressRef r) 0)),
   opacityTrace (backgroundOpacityRef r) 1 ++
   progressTrace (environmentProgressRef r) 0).
Proof.
  destruct sc as [c t k], r as [a p d n b e].
  unfold frame, prime, pauseBranch, bind, read, when,
    stored, opacityTrace, progressTrace.
  destruct p; cbn; emit_step; split_tests; reflexivity.
Qed.

Lemma frame_completed (elapsedTime : Q) (sc : Scene) (r : Refs) :
  hasCompletedRef r = true ->
  frame true elapsedTime (mkFrame sc r) =
  (tt,
   mkFrame (if hasPrimedRef r then sc else startPose sc)
     (mkRefs (animationStartRef r) true true true
        (stored (backgroundOpacityRef r) 0)
        (stored (environmentProgressRef r) 1)),
   opacityTrace (backgroundOpacityRef r) 0 ++
   progressTrace (environmentProgressRef r) 1 ++
   (if completionNotifiedRef r then [] else [onAnimationComplete])).
Proof.
  destruct sc as [c t k], r as [a p d n b e]. cbn. intros ->.
  unfold frame, prime, completedBranch, bind, read, when,
    stored, opacityTrace, progressTrace.
  destruct p, n; cbn; emit_step; split_tests; reflexivity.
Qed.

Lemma playingBranch_run (elapsedTime : Q) (s : Frame) :
  playingBranch elapsedTime s =
  (backgroundFade (clampedElapsedOf (refs s) elapsedTime) ;;
   terminalCheck (clampedElapsedOf (refs s) elapsedTime))
    (mkFrame
       (segmentPose (clampedElapsedOf (refs s) elapsedTime) (scene s))
       (mkRefs (Some (startOf (refs s) elapsedTime)) (hasPrimedRef (refs s))
          (hasCompletedRef (refs s)) (completionNotifiedRef (refs s))
          (backgroundOpacityRef (refs s)) (environmentProgressRef (refs s)))).
Proof.
  destruct s as [sc [a p d n b e]].
  unfold playingBranch, clampedElapsedOf, startOf.
  unfold bind at 1. unfold startClock, bind at 1, read.
  destruct a as [t0|]; cbn [refs animationStartRef]; cbv beta iota.
  - unfold ret. rewrite segments_run.
    cbn [refs scene animationStartRef hasPrimedRef hasCompletedRef
         completionNotifiedRef backgroundOpacityRef environmentProgressRef app].
    destruct (bind _ _ _) as [[u s'] tr]. reflexivity.
  - unfold bind at 1, set_animationStartRef, on_refs, ret.
    cbn [refs scene animationStartRef hasPrimedRef hasCompletedRef
         completionNotifiedRef backgroundOpacityRef environmentProgressRef].
    rewrite segments_run.
    cbn [refs scene animationStartRef hasPrimedRef hasCompletedRef
         completionNotifiedRef backgroundOpacityRef environmentProgressRef app].
    destruct (bind _ _ _) as [[u s'] tr]. reflexivity.
Qed.

Lemma frame_playing (elapsedTime : Q) (sc : Scene) (r : Refs) :
  hasCompletedRef r = false ->
  frame true elapsedTime (mkFrame sc r) =
  playingBranch elapsedTime
    (mkFrame (if hasPrimedRef r then sc else startPose sc)
       (mkRefs (animationStartRef r) true false (completionNotifiedRef r)
          (backgroundOpacityRef r) (environmentProgressRef r))).
Proof.
  destruct sc as [c t k], r as [a p d n b e]. cbn. intros ->.
  unfold frame, prime, bind at 1 2, read, when, startPose.
  destruct p; cbn; destruct (playingBranch _ _) as [[u s'] tr]; reflexivity.
Qed.

Lemma frame_running (elapsedTime : Q) (sc : Scene) (r : Refs) :
  hasCompletedRef r = false ->
  Qgeb (clampedElapsedOf r elapsedTime) totalAnimationTime = false ->
  frame true elapsedTime (mkFrame sc r) =
  (tt,
   mkFrame
     (segmentPose (clampedElapsedOf r elapsedTime)
        (if hasPrimedRef r then sc else startPose sc))
     (mkRefs (Some (startOf r elapsedTime)) true false (completionNotifiedRef r)
        (stored (backgroundOpacityRef r)
           (fadeOpacity (clampedElapsedOf r elapsedTime)))
        (stored (environmentProgressRef r)
           (fadeProgress (clampedElapsedOf r elapsedTime)))),
   opacityTrace (backgroundOpacityRef r)
     (fadeOpacity (clampedElapsedOf r elapsedTime)) ++
   progressTrace (environmentProgressRef r)
     (fadeProgress (clampedElapsedOf r elapsedTime))).
Proof.
  intros C E. rewrite (frame_playing _ _ _ C), playingBranch_run.
  unfold clampedElapsedOf, startOf in *.
  cbn [refs scene animationStartRef hasPrimedRef hasCompletedRef
       completionNotifiedRef backgroundOpacityRef environmentProgressRef] in *.
  unfold bind at 1. rewrite backgroundFade_run. unfold bind at 1.
  rewrite emitBackgroundOpacity_run, emitEnvironmentProgress_run.
  rewrite (terminalCheck_not_done _ _ E).
  cbn [refs scene animationStartRef hasPrimedRef hasCompletedRef
       completionNotifiedRef backgroundOpacityRef environmentProgressRef].
  unfold stored, opacityTrace, progressTrace.
  rewrite ?app_nil_r. reflexivity.
Qed.

Lemma frame_finishing (elapsedTime : Q) (sc : Scene) (r : Refs) :
  hasCompletedRef r = false ->
  Qgeb (clampedElapsedOf r elapsedTime) totalAnimationTime = true ->
  frame true elapsedTime (mkFrame sc r) =
  (tt,
   mkFrame (endPose sc)
     (mkRefs (Some (startOf r elapsedTime)) true true true
        (stored (stored (backgroundOpacityRef r)
                   (fadeOpacity (clampedElapsedOf r elapsedTime))) 0)
        (stored (stored (environmentProgressRef r)
                   (fadeProgress (clampedElapsedOf r elapsedTime))) 1)),
   (opacityTrace (backgroundOpacityRef r)
      (fadeOpacity (clampedElapsedOf r elapsedTime)) ++
    progressTrace (environmentProgressRef r)
      (fadeProgress (clampedElapsedOf r elapsedTime))) ++
   opacityTrace (stored (backgroundOpacityRef r)
                   (fadeOpacity (clampedElapsedOf r elapsedTime))) 0 ++
   progressTrace (stored (environmentProgressRef r)
                    (fadeProgress (clampedElapsedOf r elapsedTime))) 1 ++
   (if completionNotifiedRef r then [] else [onAnimationComplete])).
Proof.
  intros C E. rewrite (frame_playing _ _ _ C), playingBranch_run.
  unfold clampedElapsedOf, startOf in *.
  cbn [refs scene animationStartRef hasPrimedRef hasCompletedRef
       completionNotifiedRef backgroundOpacityRef environmentProgressRef] in *.
  unfold bind at 1. rewrite backgroundFade_run. unfold bind at 1.
  rewrite emitBackgroundOpacity_run, emitEnvironmentProgress_run.
  rewrite (terminalCheck_done _ _ E).
  cbn [refs scene animationStartRef hasPrimedRef hasCompletedRef
       completionNotifiedRef backgroundOpacityRef environmentProgressRef].
  unfold stored, opacityTrace, progressTrace.
  f_equal. f_equal. f_equal.
  destruct sc as [c t k], (hasPrimedRef r);
    unfold endPose, snapPose, segmentPose, startPose; cbn;
    match goal with
    | |- context [Qgeb ?ce CANDLE_DROP_START] =>
        destruct (Qgeb ce CANDLE_DROP_START)
    end; reflexivity.
Qed.

(** ** The deadband rule *)

(** C5: an emit forwards its clamped value to the consumer if and only if
    the clamped value is more than 0.005 away from the value emitted last;
    when it forwards, the stored value becomes the clamped value, otherwise
    the state is unchanged and no callback is invoked.  Both helpers. *)
Theorem C5_deadband_emission (value : Q) (s : Frame) :
  let clamped := clamp value 0 1 in
  (let '(_, s', tr) := emitBackgroundOpacity value s in
   let last := backgroundOpacityRef (refs s) in
   (In (onBackgroundFadeChange clamped) tr <-> 0.005 < Qabs (clamped - last)) /\
   (0.005 < Qabs (clamped - last) ->
      backgroundOpacityRef (refs s') = clamped /\
      tr = [call_emitBackgroundOpacity value; onBackgroundFadeChange clamped]) /\
   (~ 0.005 < Qabs (clamped - last) ->
      s' = s /\ tr = [call_emitBackgroundOpacity value])) /\
  (let '(_, s', tr) := emitEnvironmentProgress value s in
   let last := environmentProgressRef (refs s) in
   (In (onEnvironmentProgressChange clamped) tr <-> 0.005 < Qabs (clamped - last)) /\
   (0.005 < Qabs (clamped - last) ->
      environmentProgressRef (refs s') = clamped /\
      tr = [call_emitEnvironmentProgress value; onEnvironmentProgressChange clamped]) /\
   (~ 0.005 < Qabs (clamped - last) ->
      s' = s /\ tr = [call_emitEnvironmentProgress value])).
Proof.
  intro clamped. rewrite emitBackgroundOpacity_run, emitEnvironmentProgress_run.
  destruct s as [sc [a p c n b e]]; cbn [refs scene backgroundOpacityRef
    environmentProgressRef animationStartRef hasPrimedRef hasCompletedRef
    completionNotifiedRef].
  split.
  - destruct (forwards b value) eqn:E.
    + apply forwards_true in E. fold clamped in E. change DEADBAND with 0.005 in E.
      split; [|split].
      * split; [intros _; exact E | intros _; right; left; reflexivity].
      * intros _. split; reflexivity.
      * intro N. contradiction.
    + apply forwards_false in E. fold clamped in E. change DEADBAND with 0.005 in E.
      assert (N : ~ 0.005 < Qabs (clamped - b)) by (apply Qle_not_lt; exact E).
      split; [|split].
      * split; [intros [H|[]]; discriminate H | intro H; contradiction].
      * intro H; contradiction.
      * intros _. split; reflexivity.
  - destruct (forwards e value) eqn:E.
    + apply forwards_true in E. fold clamped in E. change DEADBAND with 0.005 in E.
      split; [|split].
      * split; [intros _; exact E | intros _; right; left; reflexivity].
      * intros _. split; reflexivity.
      * intro N. contradiction.
    + apply forwards_false in E. fold clamped in E. change DEADBAND with 0.005 in E.
      assert (N : ~ 0.005 < Qabs (clamped - e)) by (apply Qle_not_lt; exact E).
      split; [|split].
      * split; [intros [H|[]]; discriminate H | intro H; contradiction].
      * intro H; contradiction.
      * intros _. split; reflexivity.
Qed.

(** ** The derived constants *)

Lemma TABLE_SLIDE_START_value : TABLE_SLIDE_START == 2.2.
Proof. vm_compute. reflexivity. Qed.

Lemma CANDLE_DROP_START_value : CANDLE_DROP_START == 4.0.
Proof. vm_compute. reflexivity. Qed.

Lemma totalAnimationTime_value : totalAnimationTime == 5.2.
Proof. vm_compute. reflexivity. Qed.

Lemma BACKGROUND_FADE_START_value : BACKGROUND_FADE_START == 3.
Proof. vm_compute. reflexivity. Qed.

Lemma clampedElapsedOf_range (r : Refs) (elapsedTime : Q) :
  0 <= clampedElapsedOf r elapsedTime <= totalAnimationTime.
Proof.
  unfold clampedElapsedOf, clampedElapsedFrom. apply clamp_range.
  rewrite totalAnimationTime_value. lra.
Qed.

(** ** Reading off the result of a tick *)

Lemma useFrame_paused (elapsedTime : Q) (sc : Scene) (r : Refs) :
  useFrame false elapsedTime (mounted sc r) =
  (mounted (if hasPrimedRef r then sc else startPose sc)
     (mkRefs None true false false
        (stored (backgroundOpacityRef r) 1)
        (stored (environmentProgressRef r) 0)),
   opacityTrace (backgroundOpacityRef r) 1 ++
   progressTrace (environmentProgressRef r) 0).
Proof. rewrite useFrame_mounted, frame_paused. reflexivity. Qed.

Lemma useFrame_completed (elapsedTime : Q) (sc : Scene) (r : Refs) :
  hasCompletedRef r = true ->
  useFrame true elapsedTime (mounted sc r) =
  (mounted (if hasPrimedRef r then sc else startPose sc)
     (mkRefs (animationStartRef r) true true true
        (stored (backgroundOpacityRef r) 0)
        (stored (environmentProgressRef r) 1)),
   opacityTrace (backgroundOpacityRef r) 0 ++
   progressTrace (environmentProgressRef r) 1 ++
   (if completionNotifiedRef r then [] else [onAnimationComplete])).
Proof. intro C. rewrite useFrame_mounted, (frame_completed _ _ _ C). reflexivity. Qed.

Lemma useFrame_running (elapsedTime : Q) (sc : Scene) (r : Refs) :
  hasCompletedRef r = false ->
  clampedElapsedOf r elapsedTime < totalAnimationTime ->
  useFrame true elapsedTime (mounted sc r) =
  (mounted
     (segmentPose (clampedElapsedOf r elapsedTime)
        (if hasPrimedRef r then sc else startPose sc))
     (mkRefs (Some (startOf r elapsedTime)) true false (completionNotifiedRef r)
        (stored (backgroundOpacityRef r)
           (fadeOpacity (clampedElapsedOf r elapsedTime)))
        (stored (environmentProgressRef r)
           (fadeProgress (clampedElapsedOf r elapsedTime)))),
   opacityTrace (backgroundOpacityRef r)
     (fadeOpacity (clampedElapsedOf r elapsedTime)) ++
   progressTrace (environmentProgressRef r)
     (fadeProgress (clampedElapsedOf r elapsedTime))).
Proof.
  intros C E. apply Qgeb_false in E.
  rewrite useFrame_mounted, (frame_running _ _ _ C E). reflexivity.
Qed.

Lemma useFrame_finishing (elapsedTime : Q) (sc : Scene) (r : Refs) :
  hasCompletedRef r = false ->
  totalAnimationTime <= clampedElapsedOf r elapsedTime ->
  useFrame true elapsedTime (mounted sc r) =
  (mounted (endPose sc)
     (mkRefs (Some (startOf r elapsedTime)) true true true
        (stored (stored (backgroundOpacityRef r)
                   (fadeOpacity (clampedElapsedOf r elapsedTime))) 0)
        (stored (stored (environmentProgressRef r)
                   (fadeProgress (clampedElapsedOf r elapsedTime))) 1)),
   (opacityTrace (backgroundOpacityRef r)
      (fadeOpacity (clampedElapsedOf r elapsedTime)) ++
    progressTrace (environmentProgressRef r)
      (fadeProgress (clampedElapsedOf r elapsedTime))) ++
   opacityTrace (stored (backgroundOpacityRef r)
                   (fadeOpacity (clampedElapsedOf r elapsedTime))) 0 ++
   progressTrace (stored (environmentProgressRef r)
                    (fadeProgress (clampedElapsedOf r elapsedTime))) 1 ++
   (if completionNotifiedRef r then [] else [onAnimationComplete])).
Proof.
  intros C E. apply Qgeb_true in E.
  rewrite useFrame_mounted, (frame_finishing _ _ _ C E). reflexivity.
Qed.

(** ** Facts on the traces *)

Lemma requests_app (t1 t2 : list Action) :
  requests (t1 ++ t2) = requests t1 ++ requests t2.
Proof. apply filter_app. Qed.

Lemma completions_app (t1 t2 : list Action) :
  completions (t1 ++ t2) = (completions t1 + completions t2)%nat.
Proof. unfold completions. rewrite filter_app. apply length_app. Qed.

Lemma requests_opacityTrace (last value : Q) :
  requests (opacityTrace last value) = [call_emitBackgroundOpacity value].
Proof. unfold opacityTrace. destruct (forwards last value); reflexivity. Qed.

Lemma requests_progressTrace (last value : Q) :
  requests (progressTrace last value) = [call_emitEnvironmentProgress value].
Proof. unfold progressTrace. destruct (forwards last value); reflexivity. Qed.

Lemma completions_opacityTrace (last value : Q) :
  completions (opacityTrace last value) = 0%nat.
Proof. unfold opacityTrace. destruct (forwards last value); reflexivity. Qed.

Lemma completions_progressTrace (last value : Q) :
  completions (progressTrace last value) = 0%nat.
Proof. unfold progressTrace. destruct (forwards last value); reflexivity. Qed.

(** ** The fade signals *)

Lemma fadeOpacity_before (ce : Q) :
  ce < BACKGROUND_FADE_START -> fadeOpacity ce = 1 /\ fadeProgress ce = 0.
Proof.
  intro H. apply Qltb_true in H. unfold fadeProgress, fadeOpacity.
  rewrite H. split; reflexivity.
Qed.

Lemma fadeOpacity_inside (ce : Q) :
  BACKGROUND_FADE_START <= ce ->
  let eased :=
    easeOutCubic
      (clamp ((ce - BACKGROUND_FADE_START) / BACKGROUND_FADE_DURATION) 0 1) in
  fadeOpacity ce = 1 - eased /\ fadeProgress ce = 1 - (1 - eased).
Proof.
  intro H. apply Qltb_false in H. unfold fadeProgress, fadeOpacity.
  rewrite H. split; reflexivity.
Qed.

Lemma fade_eased_range (ce : Q) :
  0 <= easeOutCubic
         (clamp ((ce - BACKGROUND_FADE_START) / BACKGROUND_FADE_DURATION) 0 1)
    <= 1.
Proof. apply easeOutCubic_range. apply clamp_range. lra. Qed.

Lemma fade_sum (ce : Q) : fadeOpacity ce + fadeProgress ce == 1.
Proof.
  destruct (Qlt_le_dec ce BACKGROUND_FADE_START) as [H|H].
  - destruct (fadeOpacity_before ce H) as [-> ->]. reflexivity.
  - destruct (fadeOpacity_inside ce H) as [-> ->]. ring.
Qed.

Lemma fadeOpacity_range (ce : Q) : 0 <= fadeOpacity ce <= 1.
Proof.
  destruct (Qlt_le_dec ce BACKGROUND_FADE_START) as [H|H].
  - destruct (fadeOpacity_before ce H) as [-> _]. lra.
  - destruct (fadeOpacity_inside ce H) as [-> _].
    pose proof (fade_eased_range ce). lra.
Qed.

Lemma fade_at_end (ce : Q) :
  totalAnimationTime <= ce -> fadeOpacity ce == 0 /\ fadeProgress ce == 1.
Proof.
  intro H. rewrite totalAnimationTime_value in H.
  assert (F : BACKGROUND_FADE_START <= ce)
    by (rewrite BACKGROUND_FADE_START_value; lra).
  assert (O : fadeOpacity ce == 0).
  { destruct (fadeOpacity_inside ce F) as [-> _].
    destruct (clamp_cases ((ce - BACKGROUND_FADE_START) / BACKGROUND_FADE_DURATION)
                0 1) as [[A B]|[[A B]|[A B]]]; [lra| | |].
    - rewrite BACKGROUND_FADE_START_value in A.
      unfold BACKGROUND_FADE_DURATION in A.
      assert ((ce - 3) / 1 == ce - 3) by field. lra.
    - rewrite BACKGROUND_FADE_START_value in A.
      unfold BACKGROUND_FADE_DURATION in A.
      assert ((ce - 3) / 1 == ce - 3) by field. lra.
    - rewrite B, easeOutCubic_1. ring. }
  split; [exact O|]. pose proof (fade_sum ce). lra.
Qed.

(** ** The deadband *)

Lemma clamp_unit (v : Q) : 0 <= v <= 1 -> clamp v 0 1 == v.
Proof.
  intro H. destruct (clamp_cases v 0 1) as [[A B]|[[A B]|[A B]]]; lra.
Qed.

Lemma stored_near (last value : Q) :
  Qabs (clamp value 0 1 - stored last value) <= DEADBAND.
Proof.
  unfold stored. destruct (forwards last value) eqn:E.
  - assert (Z : clamp value 0 1 - clamp value 0 1 == 0) by ring.
    rewrite Z. vm_compute. discriminate.
  - apply forwards_false. exact E.
Qed.

Lemma forwards_stored (last value : Q) : forwards (stored last value) value = false.
Proof. apply forwards_false, stored_near. Qed.

Lemma stored_idem (last value : Q) :
  stored (stored last value) value = stored last value.
Proof. unfold stored at 1. rewrite forwards_stored. reflexivity. Qed.

Lemma stored_still (last value : Q) :
  Qabs (clamp value 0 1 - last) <= DEADBAND -> stored last value = last.
Proof. intro H. apply forwards_false in H. unfold stored. rewrite H. reflexivity. Qed.

Lemma forwards_complementary (b e a p : Q) :
  b + e == 1 -> clamp a 0 1 + clamp p 0 1 == 1 -> forwards b a = forwards e p.
Proof.
  intros H K. unfold forwards, Qgtb. f_equal.
  assert (D : clamp p 0 1 - e == - (clamp a 0 1 - b)) by lra.
  rewrite D, Qabs_opp. reflexivity.
Qed.

Lemma stored_complementary (b e a p : Q) :
  b + e == 1 -> clamp a 0 1 + clamp p 0 1 == 1 -> stored b a + stored e p == 1.
Proof.
  intros H K. unfold stored. rewrite (forwards_complementary b e a p H K).
  destruct (forwards e p); assumption.
Qed.

Lemma fade_clamped_sum (ce : Q) :
  clamp (fadeOpacity ce) 0 1 + clamp (fadeProgress ce) 0 1 == 1.
Proof.
  pose proof (fadeOpacity_range ce) as R. pose proof (fade_sum ce) as S.
  rewrite (clamp_unit (fadeOpacity ce) R).
  rewrite (clamp_unit (fadeProgress ce)); lra.
Qed.

Lemma carries_opacityTrace (o p last value : Q) :
  value == o -> 0 <= o <= 1 -> Forall (carries o p) (opacityTrace last value).
Proof.
  intros E R. unfold opacityTrace. constructor; [exact E|].
  destruct (forwards last value); constructor; [|constructor].
  cbn. rewrite E. apply clamp_unit, R.
Qed.

Lemma carries_progressTrace (o p last value : Q) :
  value == p -> 0 <= p <= 1 -> Forall (carries o p) (progressTrace last value).
Proof.
  intros E R. unfold progressTrace. constructor; [exact E|].
  destruct (forwards last value); constructor; [|constructor].
  cbn. rewrite E. apply clamp_unit, R.
Qed.

(** ** The pause branch *)

(** C3, as the code has it: every tick with [isPlaying = false] calls the
    emit helpers with opacity 1 and progress 0 (and forwards no other
    value), clears [animationStartRef] and resets [hasCompletedRef] and
    [completionNotifiedRef]; it leaves the scene exactly as it was when the
    controller has primed before, and on the one tick that primes it puts
    the scene in the start pose. *)
Theorem C3_paused_tick (sc : Scene) (r : Refs) (elapsedTime : Q) :
  exists sc' r' tr,
    useFrame false elapsedTime (mounted sc r) = (mounted sc' r', tr) /\
    requests tr = [call_emitBackgroundOpacity 1; call_emitEnvironmentProgress 0] /\
    Forall (carries 1 0) tr /\
    completions tr = 0%nat /\
    animationStartRef r' = None /\
    hasCompletedRef r' = false /\
    completionNotifiedRef r' = false /\
    hasPrimedRef r' = true /\
    sc' = (if hasPrimedRef r then sc else startPose sc).
Proof.
  eexists _, _, _. split; [apply useFrame_paused|].
  repeat split.
  - rewrite requests_app, requests_opacityTrace, requests_progressTrace.
    reflexivity.
  - apply Forall_app. split.
    + apply carries_opacityTrace; [reflexivity | lra].
    + apply carries_progressTrace; [reflexivity | lra].
  - rewrite completions_app, completions_opacityTrace, completions_progressTrace.
    reflexivity.
Qed.

(** C3 as stated fails on the first tick: with [isPlaying = false] and a
    controller that has not primed, the tick moves the cake from the origin
    up to its start height and hides the candle. *)
Lemma C3_counterexample :
  exists sc' r' tr,
    useFrame false 0 (mounted freshScene initialRefs) = (mounted sc' r', tr) /\
    y (position (cake freshScene)) = 0 /\
    y (position (cake sc')) = 10 /\
    visible (candle freshScene) = true /\
    visible (candle sc') = false /\
    sc' <> freshScene.
Proof.
  eexists _, _, _. split; [apply useFrame_paused|].
  cbn. repeat split. discriminate.
Qed.

(** ** The terminal tick *)

(** C1: the derived offsets are 2.2, 4.0 and 5.2, and a playing tick of a
    session not yet completed whose clamped elapsed time is 5.2 leaves the
    cake at its end height, the table at its end depth, the candle visible
    at its end height, calls the emit helpers with opacity 0 and progress 1
    only, and invokes the completion callback exactly once. *)
Theorem C1_total_duration_scenario (sc : Scene) (r : Refs) (elapsedTime : Q) :
  hasCompletedRef r = false ->
  completionNotifiedRef r = false ->
  clampedElapsedOf r elapsedTime == 5.2 ->
  TABLE_SLIDE_START == 2.2 /\
  CANDLE_DROP_START == Qmax 3 2.9 + 1.0 /\
  CANDLE_DROP_START == 4.0 /\
  totalAnimationTime == 5.2 /\
  exists sc' r' tr,
    useFrame true elapsedTime (mounted sc r) = (mounted sc' r', tr) /\
    y (position (cake sc')) = CAKE_END_Y /\
    z (position (table sc')) = TABLE_END_Z /\
    visible (candle sc') = true /\
    y (position (candle sc')) = CANDLE_END_Y /\
    Forall (carries 0 1) tr /\
    In (call_emitBackgroundOpacity 0) tr /\
    In (call_emitEnvironmentProgress 1) tr /\
    completions tr = 1%nat /\
    hasCompletedRef r' = true.
Proof.
  intros C N E.
  split; [apply TABLE_SLIDE_START_value|].
  split; [vm_compute; reflexivity|].
  split; [apply CANDLE_DROP_START_value|].
  split; [apply totalAnimationTime_value|].
  assert (T : totalAnimationTime <= clampedElapsedOf r elapsedTime)
    by (rewrite totalAnimationTime_value, E; lra).
  destruct (fade_at_end _ T) as [O P].
  eexists _, _, _. split; [apply (useFrame_finishing _ _ _ C T)|].
  rewrite N. repeat split.
  - repeat (apply Forall_app; split).
    + apply carries_opacityTrace; [exact O | lra].
    + apply carries_progressTrace; [exact P | lra].
    + apply carries_opacityTrace; [reflexivity | lra].
    + apply carries_progressTrace; [reflexivity | lra].
    + repeat constructor.
  - apply in_or_app. right. apply in_or_app. left. left. reflexivity.
  - apply in_or_app. right. apply in_or_app. right.
    apply in_or_app. left. left. reflexivity.
  - rewrite !completions_app, !completions_opacityTrace,
      !completions_progressTrace. reflexivity.
Qed.

Lemma C1_total_duration_scenario_witness :
  hasCompletedRef (mkRefs (Some 1) true false false 1 0) = false /\
  completionNotifiedRef (mkRefs (Some 1) true false false 1 0) = false /\
  clampedElapsedOf (mkRefs (Some 1) true false false 1 0) 6.2 == 5.2 /\
  exists sc' r' tr,
    useFrame true 6.2 (mounted freshScene (mkRefs (Some 1) true false false 1 0))
      = (mounted sc' r', tr) /\
    y (position (cake sc')) = CAKE_END_Y /\
    z (position (table sc')) = TABLE_END_Z /\
    visible (candle sc') = true /\
    y (position (candle sc')) = CANDLE_END_Y /\
    Forall (carries 0 1) tr /\
    In (call_emitBackgroundOpacity 0) tr /\
    In (call_emitEnvironmentProgress 1) tr /\
    completions tr = 1%nat /\
    hasCompletedRef r' = true.
Proof.
  split; [reflexivity|]. split; [reflexivity|].
  split; [vm_compute; reflexivity|].
  apply (C1_total_duration_scenario freshScene
           (mkRefs (Some 1) true false false 1 0) 6.2);
    [reflexivity | reflexivity | vm_compute; reflexivity].
Defined.

(** C7, as the code has it: on the tick where the clamped elapsed time
    reaches the total duration every transform is snapped to its end pose;
    the cake is at (0, CAKE_END_Y, 0) with its rotation reset to (0, 0, 0),
    the table at (0, 0, TABLE_END_Z) unrotated, the candle visible at
    (0, CANDLE_END_Y, 0). *)
Theorem C7_terminal_snap (sc : Scene) (r : Refs) (elapsedTime : Q) :
  hasCompletedRef r = false ->
  totalAnimationTime <= clampedElapsedOf r elapsedTime ->
  exists sc' r' tr,
    useFrame true elapsedTime (mounted sc r) = (mounted sc' r', tr) /\
    position (cake sc') = vec3 0 CAKE_END_Y 0 /\
    rotation (cake sc') = vec3 0 0 0 /\
    position (table sc') = vec3 0 0 TABLE_END_Z /\
    rotation (table sc') = vec3 0 0 0 /\
    position (candle sc') = vec3 0 CANDLE_END_Y 0 /\
    visible (candle sc') = true /\
    hasCompletedRef r' = true.
Proof.
  intros C T.
  eexists _, _, _. split; [apply (useFrame_finishing _ _ _ C T)|].
  repeat split.
Qed.

Lemma C7_terminal_snap_witness :
  hasCompletedRef (mkRefs (Some 1) true false false 1 0) = false /\
  totalAnimationTime <= clampedElapsedOf (mkRefs (Some 1) true false false 1 0) 6.2 /\
  exists sc' r' tr,
    useFrame true 6.2 (mounted freshScene (mkRefs (Some 1) true false false 1 0))
      = (mounted sc' r', tr) /\
    position (cake sc') = vec3 0 CAKE_END_Y 0 /\
    rotation (cake sc') = vec3 0 0 0 /\
    position (table sc') = vec3 0 0 TABLE_END_Z /\
    rotation (table sc') = vec3 0 0 0 /\
    position (candle sc') = vec3 0 CANDLE_END_Y 0 /\
    visible (candle sc') = true /\
    hasCompletedRef r' = true.
Proof.
  split; [reflexivity|]. split; [vm_compute; discriminate|].
  apply (C7_terminal_snap freshScene (mkRefs (Some 1) true false false 1 0) 6.2);
    [reflexivity | vm_compute; discriminate].
Defined.

(** C7 as stated fails: after the tick that reaches the total duration the
    y-rotation of the cake is 0, not the eased end value of a full turn,
    [easeOutCubic 1 * Math.PI * 2]. *)
Lemma C7_counterexample :
  exists sc' r' tr,
    useFrame true 6.2 (mounted freshScene (mkRefs (Some 1) true false false 1 0))
      = (mounted sc' r', tr) /\
    totalAnimationTime <= clampedElapsedOf (mkRefs (Some 1) true false false 1 0) 6.2 /\
    y (rotation (cake sc')) = 0 /\
    ~ y (rotation (cake sc')) == easeOutCubic 1 * Math_PI * 2.
Proof.
  eexists _, _, _. split; [apply useFrame_finishing|].
  - reflexivity.
  - vm_compute; discriminate.
  - split; [vm_compute; discriminate|].
    split; [reflexivity|]. vm_compute. discriminate.
Qed.

(** ** The table segment *)

(** C6, as the code has it: the table segment starts at [TABLE_SLIDE_START]
    = D1 - slideDuration - 0.1 = 2.2, which lies before max(D1,
    tableSlideStart) = 3.  On every playing tick whose clamped elapsed time
    is below [TABLE_SLIDE_START] the z of the table is [TABLE_START_Z]; from
    that offset on it is the eased interpolation from start-Z to end-Z, and
    on the terminal tick it is [TABLE_END_Z]. *)
Theorem C6_table_segment (sc : Scene) (r : Refs) (elapsedTime : Q) :
  hasCompletedRef r = false ->
  let ce := clampedElapsedOf r elapsedTime in
  exists sc' r' tr,
    useFrame true elapsedTime (mounted sc r) = (mounted sc' r', tr) /\
    (ce < TABLE_SLIDE_START -> z (position (table sc')) = TABLE_START_Z) /\
    (TABLE_SLIDE_START <= ce -> ce < totalAnimationTime ->
       z (position (table sc')) =
       lerp TABLE_START_Z TABLE_END_Z
         (easeOutCubic
            (clamp ((ce - TABLE_SLIDE_START) / TABLE_SLIDE_DURATION) 0 1))) /\
    (totalAnimationTime <= ce -> z (position (table sc')) = TABLE_END_Z) /\
    TABLE_SLIDE_START == CAKE_DESCENT_DURATION - TABLE_SLIDE_DURATION - 0.1 /\
    TABLE_SLIDE_START == 2.2 /\
    Qmax CAKE_DESCENT_DURATION TABLE_SLIDE_START == 3.
Proof.
  intros C ce.
  assert (K : TABLE_SLIDE_START == CAKE_DESCENT_DURATION - TABLE_SLIDE_DURATION - 0.1
              /\ TABLE_SLIDE_START == 2.2
              /\ Qmax CAKE_DESCENT_DURATION TABLE_SLIDE_START == 3)
    by (repeat split; vm_compute; reflexivity).
  pose proof totalAnimationTime_value as TV.
  pose proof TABLE_SLIDE_START_value as SV.
  destruct (Qlt_le_dec ce totalAnimationTime) as [L|L].
  - eexists _, _, _. split; [apply (useFrame_running _ _ _ C L)|].
    fold ce. cbn [segmentPose table position z].
    split; [|split; [|split; [|exact K]]].
    + intro B. apply Qgeb_false in B. rewrite B. reflexivity.
    + intros B _. apply Qgeb_true in B. rewrite B. reflexivity.
    + intro B. lra.
  - eexists _, _, _. split; [apply (useFrame_finishing _ _ _ C L)|].
    split; [|split; [|split; [|exact K]]].
    + intro B. lra.
    + intros _ B. lra.
    + intros _. reflexivity.
Qed.

Lemma C6_table_segment_witness :
  hasCompletedRef (mkRefs (Some 1) true false false 1 0) = false /\
  exists sc' r' tr,
    useFrame true 3.5 (mounted freshScene (mkRefs (Some 1) true false false 1 0))
      = (mounted sc' r', tr) /\
    z (position (table sc')) =
    lerp TABLE_START_Z TABLE_END_Z
      (easeOutCubic
         (clamp ((clampedElapsedOf (mkRefs (Some 1) true false false 1 0) 3.5
                  - TABLE_SLIDE_START) / TABLE_SLIDE_DURATION) 0 1)).
Proof.
  split; [reflexivity|].
  destruct (C6_table_segment freshScene (mkRefs (Some 1) true false false 1 0)
              3.5 eq_refl) as (sc' & r' & tr & U & _ & M & _).
  exists sc', r', tr. split; [exact U|].
  apply M; vm_compute; reflexivity || discriminate.
Defined.

(** C6 as stated fails: at clamped elapsed time 2.5, below
    max(CAKE_DESCENT_DURATION, TABLE_SLIDE_START) = 3, the table has left
    [TABLE_START_Z]. *)
Lemma C6_counterexample :
  exists sc' r' tr,
    useFrame true 3.5 (mounted freshScene (mkRefs (Some 1) true false false 1 0))
      = (mounted sc' r', tr) /\
    clampedElapsedOf (mkRefs (Some 1) true false false 1 0) 3.5 == 2.5 /\
    clampedElapsedOf (mkRefs (Some 1) true false false 1 0) 3.5
      < Qmax CAKE_DESCENT_DURATION TABLE_SLIDE_START /\
    ~ z (position (table sc')) == TABLE_START_Z /\
    z (position (table sc')) < 6.
Proof.
  eexists _, _, _. split; [apply useFrame_running|].
  - reflexivity.
  - vm_compute; reflexivity.
  - split; [vm_compute; reflexivity|].
    split; [vm_compute; reflexivity|].
    split; vm_compute; [discriminate | reflexivity].
Qed.

(** ** The cake segment *)

Lemma cake_lerp_antitone (e1 e2 : Q) :
  e1 <= e2 -> lerp CAKE_START_Y CAKE_END_Y e2 <= lerp CAKE_START_Y CAKE_END_Y e1.
Proof. unfold lerp, CAKE_START_Y, CAKE_END_Y. intro H. lra. Qed.

Lemma cakeEase_range (ce : Q) :
  0 <= easeOutCubic (clamp (ce / CAKE_DESCENT_DURATION) 0 1) <= 1.
Proof. apply easeOutCubic_range, clamp_range. lra. Qed.

Lemma cakeEase_mono (ce1 ce2 : Q) :
  ce1 <= ce2 ->
  easeOutCubic (clamp (ce1 / CAKE_DESCENT_DURATION) 0 1)
  <= easeOutCubic (clamp (ce2 / CAKE_DESCENT_DURATION) 0 1).
Proof.
  intro H.
  pose proof (clamp_range (ce1 / CAKE_DESCENT_DURATION) 0 1) as R1.
  pose proof (clamp_range (ce2 / CAKE_DESCENT_DURATION) 0 1) as R2.
  apply easeOutCubic_mono; [lra| |lra].
  apply clamp_mono; [lra|].
  unfold CAKE_DESCENT_DURATION, Qdiv. 
  apply Qmult_le_compat_r; [exact H | vm_compute; discriminate].
Qed.

(** C8: the height of the cake a playing tick computes is non-increasing
    in the clamped elapsed time, stays between the end and the start
    height, is the start height at elapsed 0 and is exactly the end height
    at the total duration. *)
Theorem C8_cake_descent (sc1 sc2 : Scene) (r1 r2 : Refs) (t1 t2 : Q) :
  hasCompletedRef r1 = false ->
  hasCompletedRef r2 = false ->
  clampedElapsedOf r1 t1 <= clampedElapsedOf r2 t2 ->
  exists sc1' r1' tr1 sc2' r2' tr2,
    useFrame true t1 (mounted sc1 r1) = (mounted sc1' r1', tr1) /\
    useFrame true t2 (mounted sc2 r2) = (mounted sc2' r2', tr2) /\
    y (position (cake sc2')) <= y (position (cake sc1')) /\
    CAKE_END_Y <= y (position (cake sc2')) /\
    y (position (cake sc1')) <= CAKE_START_Y /\
    (clampedElapsedOf r1 t1 == 0 -> y (position (cake sc1')) == CAKE_START_Y) /\
    (clampedElapsedOf r2 t2 == totalAnimationTime ->
       y (position (cake sc2')) = CAKE_END_Y).
Proof.
  intros C1 C2 L.
  set (ce1 := clampedElapsedOf r1 t1) in *.
  set (ce2 := clampedElapsedOf r2 t2) in *.
  pose proof totalAnimationTime_value as TV.
  pose proof (cakeEase_range ce1) as R1.
  pose proof (cakeEase_range ce2) as R2.
  pose proof (cakeEase_mono ce1 ce2 L) as M.
  assert (Z : ce1 == 0 ->
              lerp CAKE_START_Y CAKE_END_Y
                (easeOutCubic (clamp (ce1 / CAKE_DESCENT_DURATION) 0 1))
              == CAKE_START_Y).
  { intro E. rewrite E. vm_compute. reflexivity. }
  unfold lerp, CAKE_START_Y, CAKE_END_Y in Z.
  destruct (Qlt_le_dec ce1 totalAnimationTime) as [L1|L1];
    destruct (Qlt_le_dec ce2 totalAnimationTime) as [L2|L2].
  - eexists _, _, _, _, _, _.
    split; [apply (useFrame_running _ _ _ C1 L1)|].
    split; [apply (useFrame_running _ _ _ C2 L2)|].
    fold ce1 ce2. cbn [segmentPose cake position y].
    unfold lerp, CAKE_START_Y, CAKE_END_Y.
    repeat split; intros; lra.
  - eexists _, _, _, _, _, _.
    split; [apply (useFrame_running _ _ _ C1 L1)|].
    split; [apply (useFrame_finishing _ _ _ C2 L2)|].
    fold ce1 ce2. cbn [segmentPose endPose cake position y].
    unfold lerp, CAKE_START_Y, CAKE_END_Y.
    repeat split; lra.
  - lra.
  - eexists _, _, _, _, _, _.
    split; [apply (useFrame_finishing _ _ _ C1 L1)|].
    split; [apply (useFrame_finishing _ _ _ C2 L2)|].
    cbn [endPose cake position y]. unfold CAKE_START_Y, CAKE_END_Y.
    repeat split; intros; lra.
Qed.

Lemma C8_cake_descent_witness :
  hasCompletedRef (mkRefs (Some 1) true false false 1 0) = false /\
  clampedElapsedOf (mkRefs (Some 1) true false false 1 0) 2
    <= clampedElapsedOf (mkRefs (Some 1) true false false 1 0) 3 /\
  exists sc1' r1' tr1 sc2' r2' tr2,
    useFrame true 2 (mounted freshScene (mkRefs (Some 1) true false false 1 0))
      = (mounted sc1' r1', tr1) /\
    useFrame true 3 (mounted freshScene (mkRefs (Some 1) true false false 1 0))
      = (mounted sc2' r2', tr2) /\
    y (position (cake sc2')) <= y (position (cake sc1')).
Proof.
  split; [reflexivity|]. split; [vm_compute; discriminate|].
  destruct (C8_cake_descent freshScene freshScene
              (mkRefs (Some 1) true false false 1 0)
              (mkRefs (Some 1) true false false 1 0) 2 3 eq_refl eq_refl)
    as (s1 & q1 & u1 & s2 & q2 & u2 & A & B & M & _).
  - vm_compute; discriminate.
  - exists s1, q1, u1, s2, q2, u2. repeat split; assumption.
Defined.

(** ** Runs of ticks *)

Lemma ticks_app (l1 l2 : list (bool * Q)) (w : World) :
  ticks (l1 ++ l2) w =
  (fst (ticks l2 (fst (ticks l1 w))),
   snd (ticks l1 w) ++ snd (ticks l2 (fst (ticks l1 w)))).
Proof.
  revert w. induction l1 as [|[p t] l1 IH]; intro w; cbn [ticks app fst snd].
  - destruct (ticks l2 w). reflexivity.
  - destruct (useFrame p t w) as [w1 t1]. rewrite IH.
    destruct (ticks l1 w1) as [w2 t2]. cbn [fst snd].
    rewrite app_assoc. reflexivity.
Qed.

Lemma playing_app (c1 c2 : list Q) : playing (c1 ++ c2) = playing c1 ++ playing c2.
Proof. apply map_app. Qed.

Lemma useFrame_unmounted (isPlaying : bool) (elapsedTime : Q) (w : World) :
  (forall sc, w <> mounted sc (controller w)) ->
  useFrame isPlaying elapsedTime w = (w, []).
Proof.
  destruct w as [[c|] [t|] [k|] r]; intro H; try reflexivity.
  exfalso. apply (H (mkScene c t k)). reflexivity.
Qed.

Lemma World_cases (w : World) :
  (exists sc, w = mounted sc (controller w)) \/
  (forall sc, w <> mounted sc (controller w)).
Proof.
  destruct w as [[c|] [t|] [k|] r];
    try (right; intros [c' t' k']; unfold mounted; cbn; discriminate).
  left. exists (mkScene c t k). reflexivity.
Qed.

(** ** The two signals are complementary *)

Lemma opacities_app (t1 t2 : list Action) :
  opacities (t1 ++ t2) = opacities t1 ++ opacities t2.
Proof.
  induction t1 as [|a t1 IH]; [reflexivity|].
  destruct a; cbn; rewrite IH; reflexivity.
Qed.

Lemma progresses_app (t1 t2 : list Action) :
  progresses (t1 ++ t2) = progresses t1 ++ progresses t2.
Proof.
  induction t1 as [|a t1 IH]; [reflexivity|].
  destruct a; cbn; rewrite IH; reflexivity.
Qed.

Lemma opacities_opacityTrace (b o : Q) : opacities (opacityTrace b o) = [o].
Proof. unfold opacityTrace. destruct (forwards b o); reflexivity. Qed.

Lemma opacities_progressTrace (e p : Q) : opacities (progressTrace e p) = [].
Proof. unfold progressTrace. destruct (forwards e p); reflexivity. Qed.

Lemma progresses_opacityTrace (b o : Q) : progresses (opacityTrace b o) = [].
Proof. unfold opacityTrace. destruct (forwards b o); reflexivity. Qed.

Lemma progresses_progressTrace (e p : Q) : progresses (progressTrace e p) = [p].
Proof. unfold progressTrace. destruct (forwards e p); reflexivity. Qed.

Lemma signals_pair (b e o p : Q) :
  opacities (opacityTrace b o ++ progressTrace e p) = [o] /\
  progresses (opacityTrace b o ++ progressTrace e p) = [p].
Proof.
  unfold opacityTrace, progressTrace.
  destruct (forwards b o), (forwards e p); split; reflexivity.
Qed.

Lemma requests_pair (b e o p : Q) :
  requests (opacityTrace b o ++ progressTrace e p) =
  [call_emitBackgroundOpacity o; call_emitEnvironmentProgress p].
Proof.
  rewrite requests_app, requests_opacityTrace, requests_progressTrace.
  reflexivity.
Qed.

Lemma signals_completion (n : bool) :
  opacities (if n then [] else [onAnimationComplete]) = [] /\
  progresses (if n then [] else [onAnimationComplete]) = [] /\
  requests (if n then [] else [onAnimationComplete]) = [].
Proof. destruct n; repeat split. Qed.

Lemma useFrame_complementary (isPlaying : bool) (elapsedTime : Q) (w : World) :
  complementary (controller w) ->
  complementary (controller (fst (useFrame isPlaying elapsedTime w))).
Proof.
  intro H. destruct (World_cases w) as [[sc E]|U].
  2:{ rewrite (useFrame_unmounted _ _ _ U). exact H. }
  rewrite E. set (r := controller w) in *. unfold complementary in *.
  assert (P10 : clamp 1 0 1 + clamp 0 0 1 == 1) by (vm_compute; reflexivity).
  assert (P01 : clamp 0 0 1 + clamp 1 0 1 == 1) by (vm_compute; reflexivity).
  destruct isPlaying.
  - destruct (hasCompletedRef r) eqn:C.
    + rewrite (useFrame_completed _ _ _ C). cbn.
      apply stored_complementary; assumption.
    + destruct (Qlt_le_dec (clampedElapsedOf r elapsedTime) totalAnimationTime)
        as [L|L].
      * rewrite (useFrame_running _ _ _ C L). cbn.
        apply stored_complementary; [assumption | apply fade_clamped_sum].
      * rewrite (useFrame_finishing _ _ _ C L). cbn.
        apply stored_complementary; [|assumption].
        apply stored_complementary; [assumption | apply fade_clamped_sum].
  - rewrite useFrame_paused. cbn. apply stored_complementary; assumption.
Qed.

Lemma ticks_complementary (inputs : list (bool * Q)) (w : World) :
  complementary (controller w) ->
  complementary (controller (fst (ticks inputs w))).
Proof.
  revert w. induction inputs as [|[p t] rest IH]; intros w H; [exact H|].
  cbn [ticks]. pose proof (useFrame_complementary p t w H) as H1.
  destruct (useFrame p t w) as [w1 t1]. cbn [fst] in H1.
  specialize (IH w1 H1). destruct (ticks rest w1) as [w2 t2]. exact IH.
Qed.

(** C4: every playing tick calls the emit helpers with pairs that sum to
    1: (1, 0) before the fade window, (1 - eased, eased) inside it, and
    (0, 1) at and after the total duration; and the pair of values stored as
    last emitted sums to 1 in the initial state and after every tick. *)
Theorem C4_complementary_signals :
  (forall (sc : Scene) (r : Refs) (elapsedTime : Q),
     let ce := clampedElapsedOf r elapsedTime in
     let eased :=
       easeOutCubic
         (clamp ((ce - BACKGROUND_FADE_START) / BACKGROUND_FADE_DURATION) 0 1) in
     exists sc' r' tr,
       useFrame true elapsedTime (mounted sc r) = (mounted sc' r', tr) /\
       Forall2 (fun o p => o + p == 1) (opacities tr) (progresses tr) /\
       (hasCompletedRef r = true ->
          requests tr =
          [call_emitBackgroundOpacity 0; call_emitEnvironmentProgress 1]) /\
       (hasCompletedRef r = false -> ce < BACKGROUND_FADE_START ->
          requests tr =
          [call_emitBackgroundOpacity 1; call_emitEnvironmentProgress 0]) /\
       (hasCompletedRef r = false -> BACKGROUND_FADE_START <= ce ->
          ce < totalAnimationTime ->
          requests tr =
          [call_emitBackgroundOpacity (1 - eased);
           call_emitEnvironmentProgress (1 - (1 - eased))] /\
          1 - (1 - eased) == eased) /\
       (hasCompletedRef r = false -> totalAnimationTime <= ce ->
          requests tr =
          [call_emitBackgroundOpacity (1 - eased);
           call_emitEnvironmentProgress (1 - (1 - eased));
           call_emitBackgroundOpacity 0; call_emitEnvironmentProgress 1] /\
          1 - eased == 0 /\ 1 - (1 - eased) == 1)) /\
  backgroundOpacityRef initialRefs + environmentProgressRef initialRefs == 1 /\
  (forall (isPlaying : bool) (elapsedTime : Q) (w : World),
     backgroundOpacityRef (controller w) + environmentProgressRef (controller w) == 1 ->
     let w' := fst (useFrame isPlaying elapsedTime w) in
     backgroundOpacityRef (controller w') + environmentProgressRef (controller w') == 1) /\
  (forall (inputs : list (bool * Q)),
     let w := fst (ticks inputs initialWorld) in
     backgroundOpacityRef (controller w) + environmentProgressRef (controller w) == 1).
Proof.
  split; [|split; [reflexivity|split]].
  - intros sc r elapsedTime ce eased.
    pose proof BACKGROUND_FADE_START_value as BV.
    pose proof totalAnimationTime_value as TV.
    destruct (hasCompletedRef r) eqn:C.
    + eexists _, _, _. split; [apply (useFrame_completed _ _ _ C)|].
      split; [|split; [|repeat split; intros; discriminate]].
      * rewrite app_assoc, opacities_app, progresses_app.
        destruct (signals_pair (backgroundOpacityRef r)
                    (environmentProgressRef r) 0 1) as [-> ->].
        destruct (signals_completion (completionNotifiedRef r)) as (-> & -> & _).
        repeat constructor.
      * intros _. rewrite app_assoc, requests_app, requests_pair.
        destruct (signals_completion (completionNotifiedRef r)) as (_ & _ & ->).
        reflexivity.
    + destruct (Qlt_le_dec ce totalAnimationTime) as [L|L].
      * eexists _, _, _. split; [apply (useFrame_running _ _ _ C L)|].
        fold ce. rewrite requests_pair.
        destruct (signals_pair (backgroundOpacityRef r)
                    (environmentProgressRef r) (fadeOpacity ce) (fadeProgress ce))
          as [-> ->].
        split; [repeat constructor; apply fade_sum|].
        split; [intro; discriminate|].
        split; [|split].
        -- intros _ B. destruct (fadeOpacity_before ce B) as [-> ->]. reflexivity.
        -- intros _ B _. destruct (fadeOpacity_inside ce B) as [-> ->].
           fold eased. split; [reflexivity | ring].
        -- intros _ B. lra.
      * destruct (fade_at_end ce L) as [O P].
        assert (B : BACKGROUND_FADE_START <= ce) by lra.
        eexists _, _, _. split; [apply (useFrame_finishing _ _ _ C L)|].
        fold ce.
        destruct (signals_completion (completionNotifiedRef r)) as (So & Sp & Sr).
        rewrite !requests_app, !requests_opacityTrace, !requests_progressTrace, Sr.
        rewrite !opacities_app, !progresses_app, So, Sp.
        rewrite !opacities_opacityTrace, !opacities_progressTrace,
          !progresses_opacityTrace, !progresses_progressTrace.
        cbn [app].
        split; [repeat constructor; apply fade_sum|].
        split; [intro; discriminate|].
        split; [|split].
        -- intros _ B'. lra.
        -- intros _ _ B'. lra.
        -- intros _ _. destruct (fadeOpacity_inside ce B) as [Eo Ep].
           fold eased in Eo, Ep. rewrite <- Ep, <- Eo.
           split; [reflexivity | split; assumption].
  - intros isPlaying elapsedTime w H. apply useFrame_complementary. exact H.
  - intro inputs. apply ticks_complementary. reflexivity.
Qed.

(** ** Play sessions and completion *)

Lemma completed_noop (elapsedTime : Q) (sc : Scene) (r : Refs) :
  at_rest r ->
  useFrame true elapsedTime (mounted sc r) =
  (mounted sc r,
   [call_emitBackgroundOpacity 0; call_emitEnvironmentProgress 1]).
Proof.
  intros (C & N & P & B & E).
  rewrite (useFrame_completed _ _ _ C), N, P.
  assert (Fb : forwards (backgroundOpacityRef r) 0 = false)
    by (apply forwards_false; rewrite clamp_0_0_1; exact B).
  assert (Fe : forwards (environmentProgressRef r) 1 = false)
    by (apply forwards_false; rewrite clamp_1_0_1; exact E).
  unfold stored, opacityTrace, progressTrace. rewrite Fb, Fe.
  destruct r as [a p c n b e]; cbn in *; subst. reflexivity.
Qed.

Lemma rest_tick_world (elapsedTime : Q) (w : World) :
  at_rest (controller w) -> fst (useFrame true elapsedTime w) = w.
Proof.
  intro R. destruct (World_cases w) as [[sc E]|U].
  - rewrite E at 1. rewrite (completed_noop _ _ _ R). cbn [fst].
    symmetry. exact E.
  - rewrite (useFrame_unmounted _ _ _ U). reflexivity.
Qed.

Lemma rest_run_world (clocks : list Q) (w : World) :
  at_rest (controller w) -> fst (ticks (playing clocks) w) = w.
Proof.
  intro R. induction clocks as [|t rest IH]; [reflexivity|].
  cbn [playing map ticks]. pose proof (rest_tick_world t w R) as E.
  destruct (useFrame true t w) as [w1 t1]. cbn [fst] in E. subst w1.
  fold (playing rest). destruct (ticks (playing rest) w) as [w2 t2].
  exact IH.
Qed.

Lemma rest_run (clocks : list Q) (sc : Scene) (r : Refs) :
  at_rest r ->
  exists tr,
    ticks (playing clocks) (mounted sc r) = (mounted sc r, tr) /\
    completions tr = 0%nat /\
    Forall (carries 0 1) tr.
Proof.
  intro R. induction clocks as [|t rest (tr & E & K & F)].
  - exists []. repeat split. constructor.
  - exists ([call_emitBackgroundOpacity 0; call_emitEnvironmentProgress 1] ++ tr).
    cbn [playing map ticks]. rewrite (completed_noop _ _ _ R).
    fold (playing rest). rewrite E. split; [reflexivity|].
    split; [exact K|]. repeat constructor. exact F.
Qed.

Lemma session_step (elapsedTime : Q) (sc : Scene) (r : Refs) :
  fresh_session r ->
  exists sc' r' tr,
    useFrame true elapsedTime (mounted sc r) = (mounted sc' r', tr) /\
    ((clampedElapsedOf r elapsedTime < totalAnimationTime /\
      fresh_session r' /\ completions tr = 0%nat) \/
     (totalAnimationTime <= clampedElapsedOf r elapsedTime /\
      at_rest r' /\ completions tr = 1%nat)).
Proof.
  intros [C N].
  destruct (Qlt_le_dec (clampedElapsedOf r elapsedTime) totalAnimationTime)
    as [L|L].
  - eexists _, _, _. split; [apply (useFrame_running _ _ _ C L)|].
    left. split; [exact L|]. split; [split; [reflexivity | exact N]|].
    rewrite completions_app, completions_opacityTrace,
      completions_progressTrace. reflexivity.
  - eexists _, _, _. split; [apply (useFrame_finishing _ _ _ C L)|].
    right. split; [exact L|]. split.
    + unfold at_rest.
      cbn [hasCompletedRef completionNotifiedRef hasPrimedRef
           backgroundOpacityRef environmentProgressRef].
      repeat split.
      * rewrite <- clamp_0_0_1 at 1. apply stored_near.
      * rewrite <- clamp_1_0_1 at 1. apply stored_near.
    + rewrite N, !completions_app, !completions_opacityTrace,
        !completions_progressTrace. reflexivity.
Qed.

Lemma session_run (clocks : list Q) (sc : Scene) (r : Refs) :
  fresh_session r ->
  exists sc' r' tr,
    ticks (playing clocks) (mounted sc r) = (mounted sc' r', tr) /\
    ((fresh_session r' /\ completions tr = 0%nat) \/
     (at_rest r' /\ completions tr = 1%nat)).
Proof.
  revert sc r. induction clocks as [|t rest IH]; intros sc r F.
  - exists sc, r, []. split; [reflexivity|]. left. split; [exact F | reflexivity].
  - destruct (session_step t sc r F) as (sc1 & r1 & t1 & E & [(_ & F1 & K)|(_ & R1 & K)]).
    + destruct (IH sc1 r1 F1) as (sc2 & r2 & t2 & E2 & D).
      exists sc2, r2, (t1 ++ t2). cbn [playing map ticks]. rewrite E.
      fold (playing rest). rewrite E2. split; [reflexivity|].
      rewrite completions_app, K. exact D.
    + destruct (rest_run rest sc1 r1 R1) as (t2 & E2 & K2 & _).
      exists sc1, r1, (t1 ++ t2). cbn [playing map ticks]. rewrite E.
      fold (playing rest). rewrite E2. split; [reflexivity|].
      right. split; [exact R1|]. rewrite completions_app, K, K2. reflexivity.
Qed.

(** C2: in a play session (a run of ticks with [isPlaying = true] from
    refs that are neither completed nor notified) the completion callback
    is invoked once if the session has completed and not at all otherwise;
    a tick whose clamped elapsed time reaches the total duration completes
    the session and invokes the callback; and once the session has
    completed every further playing tick calls the emit helpers with
    opacity 0 and progress 1, invokes no callback and leaves the scene and
    the refs as they are, so however many ticks follow the count stays 1. *)
Theorem C2_completion_once (sc : Scene) (r : Refs) (clocks : list Q) :
  hasCompletedRef r = false ->
  completionNotifiedRef r = false ->
  exists sc' r' tr,
    ticks (playing clocks) (mounted sc r) = (mounted sc' r', tr) /\
    completions tr = (if hasCompletedRef r' then 1 else 0)%nat /\
    (hasCompletedRef r' = false ->
       forall t, totalAnimationTime <= clampedElapsedOf r' t ->
       exists sc'' r'' tr',
         useFrame true t (mounted sc' r') = (mounted sc'' r'', tr') /\
         hasCompletedRef r'' = true /\ completions tr' = 1%nat) /\
    (hasCompletedRef r' = true ->
       (forall t,
          useFrame true t (mounted sc' r') =
          (mounted sc' r',
           [call_emitBackgroundOpacity 0; call_emitEnvironmentProgress 1])) /\
       (forall more, exists tr2,
          ticks (playing (clocks ++ more)) (mounted sc r)
            = (mounted sc' r', tr ++ tr2) /\
          Forall (carries 0 1) tr2 /\
          completions (tr ++ tr2) = 1%nat)).
Proof.
  intros C N.
  destruct (session_run clocks sc r (conj C N))
    as (sc' & r' & tr & E & [([C' N'] & K)|(R & K)]).
  - exists sc', r', tr. rewrite C'. split; [exact E|]. split; [exact K|].
    split; [|intro; discriminate].
    intros _ t L.
    destruct (session_step t sc' r' (conj C' N'))
      as (sc2 & r2 & t2 & E2 & [(L' & _)|(_ & R2 & K2)]); [lra|].
    exists sc2, r2, t2. split; [exact E2|]. split; [apply R2 | exact K2].
  - exists sc', r', tr. destruct R as (C' & R').
    rewrite C'. split; [exact E|]. split; [exact K|].
    split; [intro; discriminate|].
    intros _. split.
    + intro t. apply completed_noop. split; assumption.
    + intro more.
      destruct (rest_run more sc' r' (conj C' R')) as (tr2 & E2 & K2 & F2).
      exists tr2. rewrite playing_app, ticks_app, E. cbn [fst snd]. rewrite E2.
      split; [reflexivity|]. split; [exact F2|].
      rewrite completions_app, K, K2. reflexivity.
Qed.

Lemma C2_completion_once_witness :
  hasCompletedRef initialRefs = false /\
  completionNotifiedRef initialRefs = false /\
  completions
    (snd (ticks (playing [1; 4; 6.2; 7; 8]) (mounted freshScene initialRefs)))
    = 1%nat /\
  exists sc' r' tr,
    ticks (playing [1; 4; 6.2; 7; 8]) (mounted freshScene initialRefs)
      = (mounted sc' r', tr) /\
    completions tr = (if hasCompletedRef r' then 1 else 0)%nat.
Proof.
  split; [reflexivity|]. split; [reflexivity|].
  split; [vm_compute; reflexivity|].
  destruct (C2_completion_once freshScene initialRefs [1; 4; 6.2; 7; 8]
              eq_refl eq_refl) as (sc' & r' & tr & E & K & _).
  exists sc', r', tr. split; assumption.
Defined.

(** ** The lag the deadband leaves *)

(** C10: after an emit the stored value is within 0.005 of the clamped
    value just computed; an emit whose clamped value is within 0.005 of the
    stored value forwards nothing and changes nothing; and so the stored
    value can stay away from the computed signal for good: there is a
    session that completes, where the controller computes exactly 0 and 1,
    with the stored opacity not 0 and the stored progress not 1, and no
    further playing tick changes that. *)
Theorem C10_deadband_lag :
  (forall (value : Q) (s : Frame),
     Qabs (clamp value 0 1
           - backgroundOpacityRef
               (refs (snd (fst (emitBackgroundOpacity value s))))) <= 0.005) /\
  (forall (value : Q) (s : Frame),
     Qabs (clamp value 0 1
           - environmentProgressRef
               (refs (snd (fst (emitEnvironmentProgress value s))))) <= 0.005) /\
  (forall (value : Q) (s : Frame),
     Qabs (clamp value 0 1 - backgroundOpacityRef (refs s)) <= 0.005 ->
     emitBackgroundOpacity value s = (tt, s, [call_emitBackgroundOpacity value])) /\
  (forall (value : Q) (s : Frame),
     Qabs (clamp value 0 1 - environmentProgressRef (refs s)) <= 0.005 ->
     emitEnvironmentProgress value s = (tt, s, [call_emitEnvironmentProgress value])) /\
  (exists clocks : list Q,
     let w := fst (ticks (playing clocks) initialWorld) in
     hasCompletedRef (controller w) = true /\
     In (call_emitBackgroundOpacity 0) (snd (ticks (playing clocks) initialWorld)) /\
     In (call_emitEnvironmentProgress 1) (snd (ticks (playing clocks) initialWorld)) /\
     ~ backgroundOpacityRef (controller w) == 0 /\
     ~ environmentProgressRef (controller w) == 1 /\
     forall more : list Q, fst (ticks (playing more) w) = w).
Proof.
  split; [|split; [|split; [|split]]].
  - intros value s. rewrite emitBackgroundOpacity_run. cbn [fst snd refs
      backgroundOpacityRef]. apply (stored_near (backgroundOpacityRef (refs s))).
  - intros value s. rewrite emitEnvironmentProgress_run. cbn [fst snd refs
      environmentProgressRef]. apply (stored_near (environmentProgressRef (refs s))).
  - intros value s H. apply forwards_false in H.
    rewrite emitBackgroundOpacity_run, H.
    destruct s as [sc [a p c n b e]]. reflexivity.
  - intros value s H. apply forwards_false in H.
    rewrite emitEnvironmentProgress_run, H.
    destruct s as [sc [a p c n b e]]. reflexivity.
  - exists [0; 3.85; 5.2]. cbv zeta.
    split; [vm_compute; reflexivity|].
    split; [vm_compute; tauto|].
    split; [vm_compute; tauto|].
    split; [vm_compute; discriminate|].
    split; [vm_compute; discriminate|].
    intro more. apply rest_run_world.
    unfold at_rest. repeat split; vm_compute; reflexivity || discriminate.
Qed.

(** ** The typed-text sequencer *)

Lemma length_zero_empty (l : string) : String.length l = 0%nat <-> l = EmptyString.
Proof. destruct l; cbn; split; intro H; try reflexivity; discriminate. Qed.

Lemma skipEmptyLines_spec (L : list string) (fuel next : nat) :
  (List.length L - next <= fuel)%nat ->
  let j := skipEmptyLines L fuel next in
  (next <= j)%nat /\
  (j <= Nat.max next (List.length L))%nat /\
  (forall i, (next <= i < j)%nat -> nth i L EmptyString = EmptyString) /\
  ((j < List.length L)%nat -> nth j L EmptyString <> EmptyString).
Proof.
  revert next. induction fuel as [|fuel IH]; intros next F; cbn [skipEmptyLines].
  - repeat split; intros; lia.
  - destruct (next <? List.length L) eqn:B; cbn [andb].
    + apply Nat.ltb_lt in B.
      destruct (String.length (nth next L EmptyString) =? 0)%nat eqn:Z.
      * apply Nat.eqb_eq, length_zero_empty in Z.
        destruct (IH (S next)) as (A1 & A2 & A3 & A4); [lia|].
        repeat split; try lia.
        -- intros i Hi. destruct (Nat.eq_dec i next) as [->|Ne]; [exact Z|].
           apply A3. lia.
        -- exact A4.
      * apply Nat.eqb_neq in Z.
        repeat split; try lia.
        intros _ E. apply length_zero_empty in E. contradiction.
    + apply Nat.ltb_ge in B. repeat split; try lia.
Qed.

(** C9: when the timer fires on a line that is fully revealed, the
    sequencer plays no sound, resets the character index and moves the line
    index forward past every zero-length line: the lines strictly between
    the old and the new index are all empty, and the new index is either a
    non-empty line or the length of the list, in which case typing is
    complete.  With lines ["A"; ""; "B"], from "A" fully typed the next state
    is at line 2, "B". *)
Theorem C9_skip_empty_lines (L : list string) (s : Intro) :
  (currentLineIndex s < List.length L)%nat ->
  (String.length (nth (currentLineIndex s) L EmptyString) <= currentCharIndex s)%nat ->
  let s' := fst (typingTimeout L s) in
  snd (typingTimeout L s) = [] /\
  currentCharIndex s' = 0%nat /\
  (currentLineIndex s < currentLineIndex s' <= List.length L)%nat /\
  (forall i, (currentLineIndex s < i < currentLineIndex s')%nat ->
             nth i L EmptyString = EmptyString) /\
  ((currentLineIndex s' < List.length L)%nat ->
     nth (currentLineIndex s') L EmptyString <> EmptyString /\
     typingComplete L s' = false) /\
  ((currentLineIndex s' = List.length L)%nat <-> typingComplete L s' = true) /\
  hasStarted s' = hasStarted s /\ sceneStarted s' = sceneStarted s.
Proof.
  intros R F. unfold typingTimeout.
  assert (B : (currentCharIndex s
               <? String.length (nth (currentLineIndex s) L EmptyString)) = false)
    by (apply Nat.ltb_ge; exact F).
  rewrite B. cbn [fst snd currentLineIndex currentCharIndex hasStarted
                  sceneStarted]. unfold typingComplete.
  cbn [currentLineIndex].
  destruct (skipEmptyLines_spec L (List.length L) (currentLineIndex s + 1))
    as (A1 & A2 & A3 & A4); [lia|].
  set (j := skipEmptyLines L (List.length L) (currentLineIndex s + 1)) in *.
  assert (J : (j <= List.length L)%nat) by lia.
  repeat split; try lia.
  - intros i Hi. apply A3. lia.
  - apply A4. assumption.
  - apply Nat.leb_gt. assumption.
  - intro E. apply Nat.leb_le. lia.
  - intro E. apply Nat.leb_le in E. lia.
Qed.

Lemma C9_skip_empty_lines_witness :
  (currentLineIndex (mkIntro true false 0 1)
   < List.length ["A"; ""; "B"]%string)%nat /\
  (String.length (nth (currentLineIndex (mkIntro true false 0 1))
                      ["A"; ""; "B"]%string EmptyString)
   <= currentCharIndex (mkIntro true false 0 1))%nat /\
  typingTimeout ["A"; ""; "B"]%string (mkIntro true false 0 1)
    = (mkIntro true false 2 0, []) /\
  nth 2 ["A"; ""; "B"]%string EmptyString = "B"%string /\
  (forall i, (0 < i < 2)%nat -> nth i ["A"; ""; "B"]%string EmptyString = EmptyString).
Proof.
  split; [cbn; lia|]. split; [cbn; lia|].
  split; [reflexivity|]. split; [reflexivity|].
  pose proof (C9_skip_empty_lines ["A"; ""; "B"]%string (mkIntro true false 0 1))
    as H.
  cbn in H. destruct H as (_ & _ & _ & E & _); [lia | lia |].
  exact E.
Defined.

(** The whole intro on ["A"; ""; "B"]: the states after each timer, from the
    start of typing to the start of the scene.  Line index 1, the empty
    line, is never the current line. *)
Example typing_A_empty_B :
  let L := ["A"; ""; "B"]%string in
  let s0 := mkIntro true false 0 0 in
  let s1 := timerFires L s0 in
  let s2 := timerFires L s1 in
  let s3 := timerFires L s2 in
  let s4 := timerFires L s3 in
  let s5 := timerFires L s4 in
  s1 = mkIntro true false 0 1 /\ typedLines L s1 = ["A"; ""; ""]%string /\
  s2 = mkIntro true false 2 0 /\ typedLines L s2 = ["A"; ""; ""]%string /\
  cursorLineIndex L s2 = 2%nat /\
  s3 = mkIntro true false 2 1 /\ typedLines L s3 = ["A"; ""; "B"]%string /\
  s4 = mkIntro true false 3 0 /\ typingComplete L s4 = true /\
  s5 = mkIntro true true 3 0.
Proof. cbv zeta. repeat split. Qed.

(** * Beyond the claims: the rest of the controller *)

(** ** Segments: ranges and monotonicity *)

Lemma ease_clamp_range (v : Q) : 0 <= easeOutCubic (clamp v 0 1) <= 1.
Proof. apply easeOutCubic_range, clamp_range. lra. Qed.

Lemma ease_clamp_mono (v1 v2 : Q) :
  v1 <= v2 -> easeOutCubic (clamp v1 0 1) <= easeOutCubic (clamp v2 0 1).
Proof.
  intro H.
  pose proof (clamp_range v1 0 1) as R1. pose proof (clamp_range v2 0 1) as R2.
  apply easeOutCubic_mono; [lra | apply clamp_mono; lra | lra].
Qed.

Lemma lerp_down_range (a b e : Q) :
  b <= a -> 0 <= e <= 1 -> b <= lerp a b e <= a.
Proof. intros H [E0 E1]. unfold lerp. split; nra. Qed.

Lemma lerp_down_antitone (a b e1 e2 : Q) :
  b <= a -> e1 <= e2 -> lerp a b e2 <= lerp a b e1.
Proof. intros H E. unfold lerp. nra. Qed.

Lemma shifted_progress_mono (s d c1 c2 : Q) :
  0 < d -> c1 <= c2 -> (c1 - s) / d <= (c2 - s) / d.
Proof.
  intros D H. unfold Qdiv. apply Qmult_le_compat_r; [lra|].
  apply Qlt_le_weak, Qinv_lt_0_compat, D.
Qed.

Lemma shifted_progress_full (s d c : Q) :
  0 < d -> s + d <= c -> clamp ((c - s) / d) 0 1 == 1.
Proof.
  intros D H.
  assert (1 <= (c - s) / d) by (apply Qle_shift_div_l; [exact D | lra]).
  destruct (clamp_cases ((c - s) / d) 0 1) as [[A B]|[[A B]|[A B]]]; lra.
Qed.

Lemma slide_range (a b s d c : Q) :
  b <= a ->
  b <= (if Qgeb c s
        then lerp a b (easeOutCubic (clamp ((c - s) / d) 0 1)) else a) <= a.
Proof.
  intro H. destruct (Qgeb c s); [|lra].
  apply lerp_down_range; [exact H | apply ease_clamp_range].
Qed.

Lemma slide_antitone (a b s d c1 c2 : Q) :
  b <= a -> 0 < d -> c1 <= c2 ->
  (if Qgeb c2 s
   then lerp a b (easeOutCubic (clamp ((c2 - s) / d) 0 1)) else a)
  <= (if Qgeb c1 s
      then lerp a b (easeOutCubic (clamp ((c1 - s) / d) 0 1)) else a).
Proof.
  intros H D L.
  destruct (Qgeb c1 s) eqn:G1.
  - apply Qgeb_true in G1.
    assert (G2 : Qgeb c2 s = true) by (apply Qgeb_true; lra).
    rewrite G2. apply lerp_down_antitone; [exact H|].
    apply ease_clamp_mono, shifted_progress_mono; assumption.
  - pose proof (slide_range a b s d c2 H). lra.
Qed.


Lemma tableZ_running (ce : Q) (sc : Scene) :
  z (position (table (segmentPose ce sc))) =
  (if Qgeb ce TABLE_SLIDE_START
   then lerp TABLE_START_Z TABLE_END_Z
          (easeOutCubic
             (clamp ((ce - TABLE_SLIDE_START) / TABLE_SLIDE_DURATION) 0 1))
   else TABLE_START_Z).
Proof. reflexivity. Qed.

Lemma candleY_running (ce : Q) (sc : Scene) :
  y (position (candle (segmentPose ce sc))) =
  (if Qgeb ce CANDLE_DROP_START
   then lerp CANDLE_START_Y CANDLE_END_Y
          (easeOutCubic
             (clamp ((ce - CANDLE_DROP_START) / CANDLE_DROP_DURATION) 0 1))
   else CANDLE_START_Y).
Proof. unfold segmentPose. cbn. destruct (Qgeb ce CANDLE_DROP_START); reflexivity. Qed.

Lemma candleVisible_running (ce : Q) (sc : Scene) :
  visible (candle (segmentPose ce sc)) = Qgeb ce CANDLE_DROP_START.
Proof. unfold segmentPose. cbn. destruct (Qgeb ce CANDLE_DROP_START); reflexivity. Qed.

Lemma cakeY_running (ce : Q) (sc : Scene) :
  y (position (cake (segmentPose ce sc))) =
  lerp CAKE_START_Y CAKE_END_Y
    (easeOutCubic (clamp (ce / CAKE_DESCENT_DURATION) 0 1)).
Proof. reflexivity. Qed.

Lemma Math_PI_pos : 0 < Math_PI.
Proof. vm_compute. reflexivity. Qed.

(** X3: on a playing tick of an uncompleted session the candle is visible
    exactly when the clamped elapsed time has reached [CANDLE_DROP_START]
    (4 s), and before that it sits at its start position. *)
Theorem candle_visibility (sc : Scene) (r : Refs) (elapsedTime : Q) :
  hasCompletedRef r = false ->
  let ce := clampedElapsedOf r elapsedTime in
  exists sc' r' tr,
    useFrame true elapsedTime (mounted sc r) = (mounted sc' r', tr) /\
    (visible (candle sc') = true <-> CANDLE_DROP_START <= ce) /\
    (ce < CANDLE_DROP_START ->
       position (candle sc') = vec3 0 CANDLE_START_Y 0) /\
    CANDLE_DROP_START == 4.
Proof.
  intros C ce. pose proof CANDLE_DROP_START_value as DV.
  pose proof totalAnimationTime_value as TV.
  destruct (Qlt_le_dec ce totalAnimationTime) as [L|L].
  - eexists _, _, _. split; [apply (useFrame_running _ _ _ C L)|].
    fold ce. rewrite candleVisible_running.
    split; [apply Qgeb_true|]. split; [|lra].
    intro B. apply Qgeb_false in B. unfold segmentPose. cbn. rewrite B.
    reflexivity.
  - eexists _, _, _. split; [apply (useFrame_finishing _ _ _ C L)|].
    cbn [endPose candle visible position].
    split; [split; intro; [lra | reflexivity]|]. split; [intro; lra | lra].
Qed.

Lemma candle_visibility_witness :
  hasCompletedRef (mkRefs (Some 1) true false false 1 0) = false /\
  exists sc' r' tr,
    useFrame true 5.5 (mounted freshScene (mkRefs (Some 1) true false false 1 0))
      = (mounted sc' r', tr) /\
    visible (candle sc') = true.
Proof.
  split; [reflexivity|].
  destruct (candle_visibility freshScene (mkRefs (Some 1) true false false 1 0)
              5.5 eq_refl) as (sc' & r' & tr & U & [_ V] & _).
  exists sc', r', tr. split; [exact U|]. apply V. vm_compute. discriminate.
Defined.

(** X4: whatever the clock says, a playing tick of an uncompleted session
    leaves every transform inside its range: the cake on the y axis between
    its end and start height, turned about y by at most one full turn; the
    table unrotated on the z axis between its end and start depth; the
    candle between its end and start height. *)
Theorem pose_bounds (sc : Scene) (r : Refs) (elapsedTime : Q) :
  hasCompletedRef r = false ->
  exists sc' r' tr,
    useFrame true elapsedTime (mounted sc r) = (mounted sc' r', tr) /\
    x (position (cake sc')) = 0 /\ z (position (cake sc')) = 0 /\
    CAKE_END_Y <= y (position (cake sc')) <= CAKE_START_Y /\
    x (rotation (cake sc')) = 0 /\ z (rotation (cake sc')) = 0 /\
    0 <= y (rotation (cake sc')) <= 2 * Math_PI /\
    x (position (table sc')) = 0 /\ y (position (table sc')) = 0 /\
    TABLE_END_Z <= z (position (table sc')) <= TABLE_START_Z /\
    rotation (table sc') = vec3 0 0 0 /\
    CANDLE_END_Y <= y (position (candle sc')) <= CANDLE_START_Y.
Proof.
  intro C. set (ce := clampedElapsedOf r elapsedTime).
  pose proof Math_PI_pos as PP.
  destruct (Qlt_le_dec ce totalAnimationTime) as [L|L].
  - eexists _, _, _. split; [apply (useFrame_running _ _ _ C L)|].
    fold ce. rewrite tableZ_running, candleY_running, cakeY_running.
    pose proof (ease_clamp_range (ce / CAKE_DESCENT_DURATION)) as E.
    cbn [segmentPose cake table position rotation x y z].
    repeat split; try reflexivity.
    + apply lerp_down_range; [vm_compute; discriminate | exact E].
    + apply lerp_down_range; [vm_compute; discriminate | exact E].
    + nra.
    + nra.
    + apply slide_range. vm_compute; discriminate.
    + apply slide_range. vm_compute; discriminate.
    + apply (slide_range CANDLE_START_Y CANDLE_END_Y). vm_compute; discriminate.
    + apply (slide_range CANDLE_START_Y CANDLE_END_Y). vm_compute; discriminate.
  - eexists _, _, _. split; [apply (useFrame_finishing _ _ _ C L)|].
    cbn [endPose cake table candle position rotation x y z].
    repeat split; try reflexivity; try (vm_compute; discriminate); lra.
Qed.

Lemma pose_bounds_witness :
  hasCompletedRef (mkRefs (Some 1) true false false 1 0) = false /\
  exists sc' r' tr,
    useFrame true (-7) (mounted freshScene (mkRefs (Some 1) true false false 1 0))
      = (mounted sc' r', tr) /\
    CAKE_END_Y <= y (position (cake sc')) <= CAKE_START_Y /\
    TABLE_END_Z <= z (position (table sc')) <= TABLE_START_Z /\
    CANDLE_END_Y <= y (position (candle sc')) <= CANDLE_START_Y.
Proof.
  split; [reflexivity|].
  destruct (pose_bounds freshScene (mkRefs (Some 1) true false false 1 0)
              (-7) eq_refl)
    as (sc' & r' & tr & U & _ & _ & A & _ & _ & _ & _ & _ & B & _ & D).
  exists sc', r', tr. repeat split; tauto.
Defined.




(** X6: the depth of the table and the height of the candle, as a playing
    tick computes them, never rise as the clamped elapsed time grows. *)
Theorem slide_and_drop_monotone (sc1 sc2 : Scene) (r1 r2 : Refs) (t1 t2 : Q) :
  hasCompletedRef r1 = false ->
  hasCompletedRef r2 = false ->
  clampedElapsedOf r1 t1 <= clampedElapsedOf r2 t2 ->
  exists sc1' r1' tr1 sc2' r2' tr2,
    useFrame true t1 (mounted sc1 r1) = (mounted sc1' r1', tr1) /\
    useFrame true t2 (mounted sc2 r2) = (mounted sc2' r2', tr2) /\
    z (position (table sc2')) <= z (position (table sc1')) /\
    y (position (candle sc2')) <= y (position (candle sc1')).
Proof.
  intros C1 C2 L.
  set (ce1 := clampedElapsedOf r1 t1) in *.
  set (ce2 := clampedElapsedOf r2 t2) in *.
  pose proof totalAnimationTime_value as TV.
  assert (Tab : TABLE_END_Z <= TABLE_START_Z) by (vm_compute; discriminate).
  assert (Can : CANDLE_END_Y <= CANDLE_START_Y) by (vm_compute; discriminate).
  destruct (Qlt_le_dec ce1 totalAnimationTime) as [L1|L1];
    destruct (Qlt_le_dec ce2 totalAnimationTime) as [L2|L2].
  - eexists _, _, _, _, _, _.
    split; [apply (useFrame_running _ _ _ C1 L1)|].
    split; [apply (useFrame_running _ _ _ C2 L2)|].
    fold ce1 ce2. rewrite !tableZ_running, !candleY_running. split.
    + apply slide_antitone; [exact Tab | vm_compute; reflexivity | exact L].
    + apply (slide_antitone CANDLE_START_Y CANDLE_END_Y);
        [exact Can | vm_compute; reflexivity | exact L].
  - eexists _, _, _, _, _, _.
    split; [apply (useFrame_running _ _ _ C1 L1)|].
    split; [apply (useFrame_finishing _ _ _ C2 L2)|].
    fold ce1. rewrite tableZ_running, candleY_running.
    cbn [endPose table candle position y z]. split.
    + apply slide_range. exact Tab.
    + apply (slide_range CANDLE_START_Y CANDLE_END_Y). exact Can.
  - lra.
  - eexists _, _, _, _, _, _.
    split; [apply (useFrame_finishing _ _ _ C1 L1)|].
    split; [apply (useFrame_finishing _ _ _ C2 L2)|].
    cbn [endPose table candle position y z]. split; lra.
Qed.

Lemma slide_and_drop_monotone_witness :
  hasCompletedRef (mkRefs (Some 1) true false false 1 0) = false /\
  clampedElapsedOf (mkRefs (Some 1) true false false 1 0) 3.5
    <= clampedElapsedOf (mkRefs (Some 1) true false false 1 0) 5.5 /\
  exists sc1' r1' tr1 sc2' r2' tr2,
    useFrame true 3.5 (mounted freshScene (mkRefs (Some 1) true false false 1 0))
      = (mounted sc1' r1', tr1) /\
    useFrame true 5.5 (mounted freshScene (mkRefs (Some 1) true false false 1 0))
      = (mounted sc2' r2', tr2) /\
    z (position (table sc2')) <= z (position (table sc1')) /\
    y (position (candle sc2')) <= y (position (candle sc1')).
Proof.
  split; [reflexivity|]. split; [vm_compute; discriminate|].
  apply (slide_and_drop_monotone freshScene freshScene
           (mkRefs (Some 1) true false false 1 0)
           (mkRefs (Some 1) true false false 1 0) 3.5 5.5 eq_refl eq_refl).
  vm_compute. discriminate.
Defined.

(** X7: before the terminal tick the turn of the cake is tied to its
    descent: the y-rotation is the fraction of the height already lost,
    times one full turn. *)
Theorem cake_turn_follows_descent (sc : Scene) (r : Refs) (elapsedTime : Q) :
  hasCompletedRef r = false ->
  clampedElapsedOf r elapsedTime < totalAnimationTime ->
  exists sc' r' tr,
    useFrame true elapsedTime (mounted sc r) = (mounted sc' r', tr) /\
    y (rotation (cake sc')) ==
    (CAKE_START_Y - y (position (cake sc'))) / (CAKE_START_Y - CAKE_END_Y)
    * (Math_PI * 2).
Proof.
  intros C L.
  eexists _, _, _. split; [apply (useFrame_running _ _ _ C L)|].
  cbn [segmentPose cake position rotation y].
  unfold lerp, CAKE_START_Y, CAKE_END_Y. field.
Qed.

Lemma cake_turn_follows_descent_witness :
  hasCompletedRef (mkRefs (Some 1) true false false 1 0) = false /\
  clampedElapsedOf (mkRefs (Some 1) true false false 1 0) 2.5 < totalAnimationTime /\
  exists sc' r' tr,
    useFrame true 2.5 (mounted freshScene (mkRefs (Some 1) true false false 1 0))
      = (mounted sc' r', tr) /\
    y (rotation (cake sc')) ==
    (CAKE_START_Y - y (position (cake sc'))) / (CAKE_START_Y - CAKE_END_Y)
    * (Math_PI * 2).
Proof.
  split; [reflexivity|]. split; [vm_compute; reflexivity|].
  apply (cake_turn_follows_descent freshScene
           (mkRefs (Some 1) true false false 1 0) 2.5 eq_refl).
  vm_compute. reflexivity.
Defined.

(** ** The start of a session *)

Lemma segmentPose_at_zero (ce : Q) (sc : Scene) :
  ce == 0 ->
  y (position (cake (segmentPose ce sc))) == CAKE_START_Y /\
  position (table (segmentPose ce sc)) = vec3 0 0 TABLE_START_Z /\
  position (candle (segmentPose ce sc)) = vec3 0 CANDLE_START_Y 0 /\
  visible (candle (segmentPose ce sc)) = false /\
  fadeOpacity ce = 1 /\ fadeProgress ce = 0.
Proof.
  intro E.
  assert (T : Qgeb ce TABLE_SLIDE_START = false)
    by (apply Qgeb_false; rewrite E; vm_compute; reflexivity).
  assert (K : Qgeb ce CANDLE_DROP_START = false)
    by (apply Qgeb_false; rewrite E; vm_compute; reflexivity).
  assert (F : ce < BACKGROUND_FADE_START)
    by (rewrite E; vm_compute; reflexivity).
  split; [rewrite cakeY_running, E; vm_compute; reflexivity|].
  unfold segmentPose. cbn. rewrite T, K.
  repeat split; apply (fadeOpacity_before ce F).
Qed.

Lemma clampedElapsedFrom_early (t0 t : Q) :
  t <= t0 -> clampedElapsedFrom t0 t == 0.
Proof.
  intro H. unfold clampedElapsedFrom.
  destruct (clamp_cases (t - t0) 0 totalAnimationTime) as [[A B]|[[A B]|[A B]]];
    try (rewrite totalAnimationTime_value in *); lra.
Qed.

(** X8: pausing rewinds.  After a tick with [isPlaying = false], whatever
    the state before it, the next playing tick starts the animation over:
    it takes its own clock value as the start time and puts the cake at its
    start height, the table at its start depth and the candle hidden at its
    start position, with opacity 1 and progress 0 called for. *)
Theorem pause_rewinds (sc : Scene) (r : Refs) (t1 t2 : Q) :
  exists sc1 r1 tr1 sc2 r2 tr2,
    useFrame false t1 (mounted sc r) = (mounted sc1 r1, tr1) /\
    useFrame true t2 (mounted sc1 r1) = (mounted sc2 r2, tr2) /\
    animationStartRef r2 = Some t2 /\
    hasCompletedRef r2 = false /\
    y (position (cake sc2)) == CAKE_START_Y /\
    position (table sc2) = vec3 0 0 TABLE_START_Z /\
    position (candle sc2) = vec3 0 CANDLE_START_Y 0 /\
    visible (candle sc2) = false /\
    requests tr2 = [call_emitBackgroundOpacity 1; call_emitEnvironmentProgress 0] /\
    completions tr2 = 0%nat.
Proof.
  eexists _, _, _. 
  set (r1 := mkRefs None true false false (stored (backgroundOpacityRef r) 1)
               (stored (environmentProgressRef r) 0)).
  set (sc1 := if hasPrimedRef r then sc else startPose sc).
  assert (Z : clampedElapsedOf r1 t2 == 0)
    by (apply clampedElapsedFrom_early; cbn; lra).
  assert (L : clampedElapsedOf r1 t2 < totalAnimationTime)
    by (rewrite Z; vm_compute; reflexivity).
  eexists _, _, _. split; [apply useFrame_paused|].
  fold r1 sc1. split; [apply (useFrame_running t2 sc1 r1 eq_refl L)|].
  destruct (segmentPose_at_zero (clampedElapsedOf r1 t2) sc1 Z)
    as (A1 & A2 & A3 & A4 & A5 & A6).
  rewrite A5, A6, requests_pair, completions_app,
    completions_opacityTrace, completions_progressTrace.
  repeat split; assumption.
Qed.

(** X16: a clock value at or before the recorded start time counts as
    elapsed 0: the playing tick shows the start pose and calls for opacity
    1 and progress 0. *)
Theorem clock_before_start (sc : Scene) (r : Refs) (t0 elapsedTime : Q) :
  hasCompletedRef r = false ->
  animationStartRef r = Some t0 ->
  elapsedTime <= t0 ->
  exists sc' r' tr,
    useFrame true elapsedTime (mounted sc r) = (mounted sc' r', tr) /\
    animationStartRef r' = Some t0 /\
    y (position (cake sc')) == CAKE_START_Y /\
    position (table sc') = vec3 0 0 TABLE_START_Z /\
    position (candle sc') = vec3 0 CANDLE_START_Y 0 /\
    visible (candle sc') = false /\
    requests tr = [call_emitBackgroundOpacity 1; call_emitEnvironmentProgress 0].
Proof.
  intros C S H.
  assert (Z : clampedElapsedOf r elapsedTime == 0).
  { unfold clampedElapsedOf, startOf. rewrite S.
    apply clampedElapsedFrom_early, H. }
  assert (L : clampedElapsedOf r elapsedTime < totalAnimationTime)
    by (rewrite Z; vm_compute; reflexivity).
  eexists _, _, _. split; [apply (useFrame_running _ _ _ C L)|].
  destruct (segmentPose_at_zero (clampedElapsedOf r elapsedTime)
              (if hasPrimedRef r then sc else startPose sc) Z)
    as (A1 & A2 & A3 & A4 & A5 & A6).
  rewrite A5, A6, requests_pair.
  cbn [animationStartRef]. unfold startOf. rewrite S.
  repeat split; assumption.
Qed.

Lemma clock_before_start_witness :
  hasCompletedRef (mkRefs (Some 9) true false false 1 0) = false /\
  animationStartRef (mkRefs (Some 9) true false false 1 0) = Some 9 /\
  2 <= 9 /\
  exists sc' r' tr,
    useFrame true 2 (mounted (endPose freshScene)
                       (mkRefs (Some 9) true false false 1 0))
      = (mounted sc' r', tr) /\
    y (position (cake sc')) == CAKE_START_Y /\
    visible (candle sc') = false.
Proof.
  split; [reflexivity|]. split; [reflexivity|].
  split; [vm_compute; discriminate|].
  destruct (clock_before_start (endPose freshScene)
              (mkRefs (Some 9) true false false 1 0) 9 2 eq_refl eq_refl)
    as (sc' & r' & tr & U & _ & A & _ & _ & V & _).
  - vm_compute. discriminate.
  - exists sc', r', tr. repeat split; assumption.
Defined.

(** X9: pausing re-arms the completion callback.  From any state at all, a
    tick with [isPlaying = false] followed by a run of playing ticks
    invokes the completion callback once if that run completes and not at
    all otherwise. *)
Theorem pause_rearms_completion (sc : Scene) (r : Refs) (t : Q) (clocks : list Q) :
  exists sc' r' tr,
    ticks ((false, t) :: playing clocks) (mounted sc r) = (mounted sc' r', tr) /\
    completions tr = (if hasCompletedRef r' then 1 else 0)%nat.
Proof.
  set (r1 := mkRefs None true false false (stored (backgroundOpacityRef r) 1)
               (stored (environmentProgressRef r) 0)).
  destruct (session_run clocks (if hasPrimedRef r then sc else startPose sc) r1)
    as (sc' & r' & tr & E & D); [split; reflexivity|].
  exists sc', r'. eexists. cbn [ticks]. rewrite useFrame_paused.
  fold r1. rewrite E. split; [reflexivity|].
  rewrite !completions_app, completions_opacityTrace,
    completions_progressTrace.
  destruct D as [([C _] & K)|([C _] & K)]; rewrite C, K; reflexivity.
Qed.

(** X15: the start time is latched.  The first playing tick of a session
    records its clock value as the start time, and no later playing tick of
    the session changes it, also after completion. *)
Theorem start_time_latched (sc : Scene) (r : Refs) (t0 : Q) (clocks : list Q) :
  hasCompletedRef r = false ->
  animationStartRef r = None ->
  exists sc' r' tr,
    ticks (playing (t0 :: clocks)) (mounted sc r) = (mounted sc' r', tr) /\
    animationStartRef r' = Some t0.
Proof.
  intros C S.
  assert (Keep : forall cs sc1 r1,
             animationStartRef r1 = Some t0 ->
             exists sc' r' tr,
               ticks (playing cs) (mounted sc1 r1) = (mounted sc' r', tr) /\
               animationStartRef r' = Some t0).
  { induction cs as [|c cs IH]; intros sc1 r1 S1.
    - exists sc1, r1, []. split; [reflexivity | exact S1].
    - assert (Step : exists sc2 r2 tr2,
                 useFrame true c (mounted sc1 r1) = (mounted sc2 r2, tr2) /\
                 animationStartRef r2 = Some t0).
      { destruct (hasCompletedRef r1) eqn:C1.
        - eexists _, _, _. split; [apply (useFrame_completed _ _ _ C1)|].
          exact S1.
        - destruct (Qlt_le_dec (clampedElapsedOf r1 c) totalAnimationTime)
            as [L|L].
          + eexists _, _, _. split; [apply (useFrame_running _ _ _ C1 L)|].
            cbn [animationStartRef]. unfold startOf. rewrite S1. reflexivity.
          + eexists _, _, _. split; [apply (useFrame_finishing _ _ _ C1 L)|].
            cbn [animationStartRef]. unfold startOf. rewrite S1. reflexivity. }
      destruct Step as (sc2 & r2 & tr2 & U & S2).
      destruct (IH sc2 r2 S2) as (sc' & r' & tr & E & S').
      exists sc', r', (tr2 ++ tr). cbn [playing map ticks]. rewrite U.
      fold (playing cs). rewrite E. split; [reflexivity | exact S']. }
  assert (First : exists sc1 r1 tr1,
             useFrame true t0 (mounted sc r) = (mounted sc1 r1, tr1) /\
             animationStartRef r1 = Some t0).
  { destruct (Qlt_le_dec (clampedElapsedOf r t0) totalAnimationTime) as [L|L].
    - eexists _, _, _. split; [apply (useFrame_running _ _ _ C L)|].
      cbn [animationStartRef]. unfold startOf. rewrite S. reflexivity.
    - eexists _, _, _. split; [apply (useFrame_finishing _ _ _ C L)|].
      cbn [animationStartRef]. unfold startOf. rewrite S. reflexivity. }
  destruct First as (sc1 & r1 & tr1 & U & S1).
  destruct (Keep clocks sc1 r1 S1) as (sc' & r' & tr & E & S').
  exists sc', r', (tr1 ++ tr). cbn [playing map ticks]. rewrite U.
  fold (playing clocks). rewrite E. split; [reflexivity | exact S'].
Qed.

Lemma start_time_latched_witness :
  hasCompletedRef initialRefs = false /\
  animationStartRef initialRefs = None /\
  exists sc' r' tr,
    ticks (playing [2; 1; 9; 3]) (mounted freshScene initialRefs)
      = (mounted sc' r', tr) /\
    animationStartRef r' = Some 2.
Proof.
  split; [reflexivity|]. split; [reflexivity|].
  apply (start_time_latched freshScene initialRefs 2 [1; 9; 3]); reflexivity.
Defined.

(** ** Null refs and paused runs *)

Lemma useFrame_null (isPlaying : bool) (elapsedTime : Q) (w : World) :
  cakeGroup w = None \/ tableGroup w = None \/ candleGroup w = None ->
  useFrame isPlaying elapsedTime w = (w, []).
Proof.
  destruct w as [[c|] [t|] [k|] r]; cbn; intros [H|[H|H]];
    try discriminate; reflexivity.
Qed.

(** X1: while one of the three group refs is still null the frame callback
    does nothing: over any run of ticks, playing or not, the refs and the
    groups stay as they are and nothing is emitted or called. *)
Theorem unmounted_ticks_do_nothing (inputs : list (bool * Q)) (w : World) :
  cakeGroup w = None \/ tableGroup w = None \/ candleGroup w = None ->
  ticks inputs w = (w, []).
Proof.
  intro H. induction inputs as [|[p t] rest IH]; [reflexivity|].
  cbn [ticks]. rewrite (useFrame_null p t w H), IH. reflexivity.
Qed.

Lemma unmounted_ticks_do_nothing_witness :
  (cakeGroup (mkWorld (Some newGroup) None (Some newGroup) initialRefs) = None \/
   tableGroup (mkWorld (Some newGroup) None (Some newGroup) initialRefs) = None \/
   candleGroup (mkWorld (Some newGroup) None (Some newGroup) initialRefs) = None) /\
  ticks [(false, 0); (true, 1); (true, 9)]
    (mkWorld (Some newGroup) None (Some newGroup) initialRefs)
  = (mkWorld (Some newGroup) None (Some newGroup) initialRefs, []).
Proof.
  split; [right; left; reflexivity|].
  apply unmounted_ticks_do_nothing. right. left. reflexivity.
Defined.

Lemma paused_noop (elapsedTime : Q) (sc : Scene) (r : Refs) :
  idle r ->
  useFrame false elapsedTime (mounted sc r) =
  (mounted sc r,
   [call_emitBackgroundOpacity 1; call_emitEnvironmentProgress 0]).
Proof.
  intros (S & P & C & N & B & E).
  rewrite useFrame_paused, P.
  assert (Fb : forwards (backgroundOpacityRef r) 1 = false)
    by (apply forwards_false; rewrite clamp_1_0_1; exact B).
  assert (Fe : forwards (environmentProgressRef r) 0 = false)
    by (apply forwards_false; rewrite clamp_0_0_1; exact E).
  unfold stored, opacityTrace, progressTrace. rewrite Fb, Fe.
  destruct r as [a p c n b e]; cbn in *; subst. reflexivity.
Qed.

Lemma paused_tick_idle (r : Refs) :
  idle (mkRefs None true false false
          (stored (backgroundOpacityRef r) 1)
          (stored (environmentProgressRef r) 0)).
Proof.
  unfold idle.
  cbn [animationStartRef hasPrimedRef hasCompletedRef completionNotifiedRef
       backgroundOpacityRef environmentProgressRef].
  repeat split.
  - rewrite <- clamp_1_0_1 at 1. apply stored_near.
  - rewrite <- clamp_0_0_1 at 1. apply stored_near.
Qed.

(** X2: a run of paused ticks does its work on the first one.  The first
    tick with [isPlaying = false] primes the scene if need be and resets
    the refs; every further paused tick calls the emit helpers with 1 and
    0, invokes no callback and leaves the scene and the refs exactly as the
    first one left them. *)
Theorem paused_run_settles (sc : Scene) (r : Refs) (t : Q) (clocks : list Q) :
  exists sc' r' tr1,
    useFrame false t (mounted sc r) = (mounted sc' r', tr1) /\
    ticks (paused (t :: clocks)) (mounted sc r) =
    (mounted sc' r',
     tr1 ++ flat_map
              (fun _ => [call_emitBackgroundOpacity 1;
                         call_emitEnvironmentProgress 0]) clocks) /\
    sc' = (if hasPrimedRef r then sc else startPose sc).
Proof.
  eexists _, _, _. split; [apply useFrame_paused|].
  split; [|reflexivity].
  cbn [paused map ticks]. rewrite useFrame_paused.
  set (r1 := mkRefs None true false false _ _).
  set (sc1 := if hasPrimedRef r then sc else startPose sc).
  assert (I : idle r1) by apply paused_tick_idle.
  assert (Rest : forall cs,
             ticks (paused cs) (mounted sc1 r1) =
             (mounted sc1 r1,
              flat_map (fun _ => [call_emitBackgroundOpacity 1;
                                  call_emitEnvironmentProgress 0]) cs)).
  { induction cs as [|c cs IH]; [reflexivity|].
    cbn [paused map ticks flat_map]. rewrite (paused_noop c sc1 r1 I).
    fold (paused cs). rewrite IH. reflexivity. }
  fold (paused clocks). rewrite Rest. reflexivity.
Qed.

(** ** The shape of a tick's trace *)

(** X10: within a tick the completion callback comes last.  The trace of
    any tick is a body without completion calls, followed by nothing or by
    the single completion call; so the emits and the signal callbacks of
    the tick are over when the consumer hears of completion. *)
Theorem completion_is_last (isPlaying : bool) (elapsedTime : Q) (w : World) :
  exists body tail,
    snd (useFrame isPlaying elapsedTime w) = body ++ tail /\
    completions body = 0%nat /\
    (tail = [] \/ tail = [onAnimationComplete]).
Proof.
  destruct (World_cases w) as [[sc E]|U].
  2:{ exists [], []. rewrite (useFrame_unmounted _ _ _ U). repeat split.
      left. reflexivity. }
  rewrite E. set (r := controller w).
  assert (T : forall n : bool,
             (if n then [] else [onAnimationComplete]) = []
             \/ (if n then [] else [onAnimationComplete]) = [onAnimationComplete])
    by (intros [|]; [left | right]; reflexivity).
  destruct isPlaying.
  - destruct (hasCompletedRef r) eqn:C.
    + rewrite (useFrame_completed _ _ _ C). cbn [snd]. rewrite app_assoc.
      eexists _, _. split; [reflexivity|]. split; [|apply T].
      rewrite completions_app, completions_opacityTrace,
        completions_progressTrace. reflexivity.
    + destruct (Qlt_le_dec (clampedElapsedOf r elapsedTime) totalAnimationTime)
        as [L|L].
      * rewrite (useFrame_running _ _ _ C L). cbn [snd].
        eexists _, []. split; [rewrite app_nil_r; reflexivity|].
        split; [|left; reflexivity].
        rewrite completions_app, completions_opacityTrace,
          completions_progressTrace. reflexivity.
      * rewrite (useFrame_finishing _ _ _ C L). cbn [snd].
        rewrite !app_assoc.
        eexists _, _. split; [reflexivity|]. split; [|apply T].
        rewrite !completions_app, !completions_opacityTrace,
          !completions_progressTrace. reflexivity.
  - rewrite useFrame_paused. cbn [snd].
    eexists _, []. split; [rewrite app_nil_r; reflexivity|].
    split; [|left; reflexivity].
    rewrite completions_app, completions_opacityTrace,
      completions_progressTrace. reflexivity.
Qed.

(** ** What the consumers are handed *)

Lemma synced_app (b e b1 e1 b2 e2 : Q) (t1 t2 : list Action) :
  synced b e t1 b1 e1 -> synced b1 e1 t2 b2 e2 -> synced b e (t1 ++ t2) b2 e2.
Proof.
  revert b e. induction t1 as [|a t1 IH]; intros b e (A1 & A2 & A3 & A4) H2.
  - cbn in A1, A2. subst. exact H2.
  - destruct a; cbn in *.
    + apply IH; [repeat split; assumption | exact H2].
    + apply IH; [repeat split; assumption | exact H2].
    + destruct A3 as [G A3].
      destruct (IH opacity e) as (B1 & B2 & B3 & B4);
        [repeat split; assumption | exact H2|].
      repeat split; assumption.
    + destruct A4 as [G A4].
      destruct (IH b progress) as (B1 & B2 & B3 & B4);
        [repeat split; assumption | exact H2|].
      repeat split; assumption.
    + apply IH; [repeat split; assumption | exact H2].
Qed.

Lemma synced_pair (b e o p : Q) :
  synced b e (opacityTrace b o ++ progressTrace e p) (stored b o) (stored e p).
Proof.
  unfold synced, opacityTrace, progressTrace, stored.
  destruct (forwards b o) eqn:Fb; destruct (forwards e p) eqn:Fe; cbn;
    try apply forwards_true in Fb; try apply forwards_true in Fe;
    repeat split; assumption.
Qed.

Lemma synced_tail (b e : Q) (n : bool) :
  synced b e (if n then [] else [onAnimationComplete]) b e.
Proof. destruct n; repeat split. Qed.

Lemma synced_nil (b e : Q) : synced b e [] b e.
Proof. repeat split. Qed.

Lemma tick_synced (isPlaying : bool) (elapsedTime : Q) (w : World) :
  synced (backgroundOpacityRef (controller w))
         (environmentProgressRef (controller w))
         (snd (useFrame isPlaying elapsedTime w))
         (backgroundOpacityRef (controller (fst (useFrame isPlaying elapsedTime w))))
         (environmentProgressRef (controller (fst (useFrame isPlaying elapsedTime w)))).
Proof.
  destruct (World_cases w) as [[sc E]|U].
  2:{ rewrite (useFrame_unmounted _ _ _ U). apply synced_nil. }
  rewrite E. set (r := controller w).
  change (controller (mounted sc r)) with r.
  destruct isPlaying.
  - destruct (hasCompletedRef r) eqn:C.
    + rewrite (useFrame_completed _ _ _ C). cbn [fst snd mounted controller
        backgroundOpacityRef environmentProgressRef].
      rewrite app_assoc.
      eapply synced_app; [apply synced_pair | apply synced_tail].
    + destruct (Qlt_le_dec (clampedElapsedOf r elapsedTime) totalAnimationTime)
        as [L|L].
      * rewrite (useFrame_running _ _ _ C L). cbn [fst snd mounted controller
          backgroundOpacityRef environmentProgressRef].
        apply synced_pair.
      * rewrite (useFrame_finishing _ _ _ C L). cbn [fst snd mounted controller
          backgroundOpacityRef environmentProgressRef].
        eapply synced_app; [apply synced_pair|].
        rewrite app_assoc.
        eapply synced_app; [apply synced_pair | apply synced_tail].
  - rewrite useFrame_paused. cbn [fst snd mounted controller
      backgroundOpacityRef environmentProgressRef].
    apply synced_pair.
Qed.

Lemma mountEffect_run (s : Frame) :
  mountEffect s =
  (tt, s,
   [onBackgroundFadeChange (backgroundOpacityRef (refs s));
    onEnvironmentProgressChange (environmentProgressRef (refs s))]).
Proof. destruct s as [sc r]. reflexivity. Qed.

(** X12: the consumers stay in step with the controller.  Over any run of
    ticks from any state, if the consumers start out holding the stored
    opacity and progress (as the mount effect hands them over), then after
    the run the last value each was handed is again the stored one, and
    every value handed over was more than 0.005 away from the one before
    it. *)
Theorem consumers_in_sync (inputs : list (bool * Q)) (w : World) :
  let w' := fst (ticks inputs w) in
  let tr := snd (ticks inputs w) in
  lastOpacity (backgroundOpacityRef (controller w)) tr
    = backgroundOpacityRef (controller w') /\
  lastProgress (environmentProgressRef (controller w)) tr
    = environmentProgressRef (controller w') /\
  opacityGaps (backgroundOpacityRef (controller w)) tr /\
  progressGaps (environmentProgressRef (controller w)) tr.
Proof.
  revert w. induction inputs as [|[p t] rest IH]; intro w.
  - repeat split.
  - cbn [ticks]. pose proof (tick_synced p t w) as S.
    destruct (useFrame p t w) as [w1 t1]. cbn [fst snd] in S.
    specialize (IH w1). destruct (ticks rest w1) as [w2 t2].
    cbn [fst snd] in *. apply (synced_app _ _ _ _ _ _ _ _ S IH).
Qed.

Lemma unit_opacityTrace (b o : Q) : Forall in_unit (opacityTrace b o).
Proof.
  unfold opacityTrace. constructor; [exact I|].
  destruct (forwards b o); constructor; [|constructor].
  apply clamp_range. lra.
Qed.

Lemma unit_progressTrace (e p : Q) : Forall in_unit (progressTrace e p).
Proof.
  unfold progressTrace. constructor; [exact I|].
  destruct (forwards e p); constructor; [|constructor].
  apply clamp_range. lra.
Qed.

Lemma unit_tail (n : bool) : Forall in_unit (if n then [] else [onAnimationComplete]).
Proof. destruct n; repeat constructor. Qed.

Lemma stored_unit (last value : Q) :
  0 <= last <= 1 -> 0 <= stored last value <= 1.
Proof.
  intro H. unfold stored. destruct (forwards last value); [|exact H].
  apply clamp_range. lra.
Qed.

Lemma tick_unit (isPlaying : bool) (elapsedTime : Q) (w : World) :
  Forall in_unit (snd (useFrame isPlaying elapsedTime w)) /\
  (0 <= backgroundOpacityRef (controller w) <= 1 ->
   0 <= backgroundOpacityRef
          (controller (fst (useFrame isPlaying elapsedTime w))) <= 1) /\
  (0 <= environmentProgressRef (controller w) <= 1 ->
   0 <= environmentProgressRef
          (controller (fst (useFrame isPlaying elapsedTime w))) <= 1).
Proof.
  destruct (World_cases w) as [[sc E]|U].
  2:{ rewrite (useFrame_unmounted _ _ _ U). repeat split; try tauto.
      constructor. }
  rewrite E. set (r := controller w).
  change (controller (mounted sc r)) with r.
  destruct isPlaying.
  - destruct (hasCompletedRef r) eqn:C.
    + rewrite (useFrame_completed _ _ _ C). cbn [fst snd mounted controller
        backgroundOpacityRef environmentProgressRef].
      split; [|split; apply stored_unit].
      repeat (apply Forall_app; split);
        auto using unit_opacityTrace, unit_progressTrace, unit_tail.
    + destruct (Qlt_le_dec (clampedElapsedOf r elapsedTime) totalAnimationTime)
        as [L|L].
      * rewrite (useFrame_running _ _ _ C L). cbn [fst snd mounted controller
          backgroundOpacityRef environmentProgressRef].
        split; [|split; apply stored_unit].
        repeat (apply Forall_app; split);
          auto using unit_opacityTrace, unit_progressTrace, unit_tail.
      * rewrite (useFrame_finishing _ _ _ C L). cbn [fst snd mounted controller
          backgroundOpacityRef environmentProgressRef].
        split; [|split; intro; apply stored_unit, stored_unit; assumption].
        repeat (apply Forall_app; split);
          auto using unit_opacityTrace, unit_progressTrace, unit_tail.
  - rewrite useFrame_paused. cbn [fst snd mounted controller
      backgroundOpacityRef environmentProgressRef].
    split; [|split; apply stored_unit].
    repeat (apply Forall_app; split);
      auto using unit_opacityTrace, unit_progressTrace, unit_tail.
Qed.

(** X11: every value handed to a signal consumer lies between 0 and 1,
    over any run of ticks from any state; and the two stored values stay
    between 0 and 1 once they are, as they are initially. *)
Theorem callbacks_in_unit (inputs : list (bool * Q)) (w : World) :
  Forall in_unit (snd (ticks inputs w)) /\
  (0 <= backgroundOpacityRef (controller w) <= 1 ->
   0 <= backgroundOpacityRef (controller (fst (ticks inputs w))) <= 1) /\
  (0 <= environmentProgressRef (controller w) <= 1 ->
   0 <= environmentProgressRef (controller (fst (ticks inputs w))) <= 1).
Proof.
  revert w. induction inputs as [|[p t] rest IH]; intro w.
  - cbn. repeat split; try tauto. constructor.
  - cbn [ticks]. destruct (tick_unit p t w) as (A & B & D).
    destruct (useFrame p t w) as [w1 t1]. cbn [fst snd] in *.
    destruct (IH w1) as (A' & B' & D'). destruct (ticks rest w1) as [w2 t2].
    cbn [fst snd] in *. split; [apply Forall_app; split; assumption|].
    split; intro H; auto.
Qed.

(** ** The fade window *)

Lemma fade_after_window (ce : Q) :
  CANDLE_DROP_START <= ce -> fadeOpacity ce == 0 /\ fadeProgress ce == 1.
Proof.
  intro H. rewrite CANDLE_DROP_START_value in H.
  assert (F : BACKGROUND_FADE_START <= ce)
    by (rewrite BACKGROUND_FADE_START_value; lra).
  assert (O : fadeOpacity ce == 0).
  { destruct (fadeOpacity_inside ce F) as [-> _].
    rewrite (shifted_progress_full BACKGROUND_FADE_START
               BACKGROUND_FADE_DURATION ce).
    - rewrite easeOutCubic_1. ring.
    - vm_compute. reflexivity.
    - rewrite BACKGROUND_FADE_START_value. unfold BACKGROUND_FADE_DURATION. lra. }
  split; [exact O|]. pose proof (fade_sum ce). lra.
Qed.

Lemma fadeOpacity_antitone (c1 c2 : Q) :
  c1 <= c2 -> fadeOpacity c2 <= fadeOpacity c1.
Proof.
  intro H. destruct (Qlt_le_dec c1 BACKGROUND_FADE_START) as [B|B].
  - destruct (fadeOpacity_before c1 B) as [-> _].
    apply (fadeOpacity_range c2).
  - assert (B2 : BACKGROUND_FADE_START <= c2) by lra.
    destruct (fadeOpacity_inside c1 B) as [-> _].
    destruct (fadeOpacity_inside c2 B2) as [-> _].
    assert (M : easeOutCubic
                  (clamp ((c1 - BACKGROUND_FADE_START) / BACKGROUND_FADE_DURATION) 0 1)
                <= easeOutCubic
                     (clamp ((c2 - BACKGROUND_FADE_START) / BACKGROUND_FADE_DURATION) 0 1)).
    { apply ease_clamp_mono, shifted_progress_mono;
        [vm_compute; reflexivity | exact H]. }
    lra.
Qed.

(** X13: the background has faded out by the time the candle shows.  The
    fade window ends where the candle drop starts, and on a playing tick
    that leaves the candle visible every emit call and every signal
    callback carries opacity 0 and progress 1. *)
Theorem faded_when_candle_shows (sc : Scene) (r : Refs) (elapsedTime : Q) :
  hasCompletedRef r = false ->
  exists sc' r' tr,
    useFrame true elapsedTime (mounted sc r) = (mounted sc' r', tr) /\
    (visible (candle sc') = true -> Forall (carries 0 1) tr) /\
    BACKGROUND_FADE_START + BACKGROUND_FADE_DURATION == CANDLE_DROP_START.
Proof.
  intro C. set (ce := clampedElapsedOf r elapsedTime).
  assert (K : BACKGROUND_FADE_START + BACKGROUND_FADE_DURATION == CANDLE_DROP_START)
    by (vm_compute; reflexivity).
  pose proof totalAnimationTime_value as TV.
  pose proof CANDLE_DROP_START_value as DV.
  destruct (Qlt_le_dec ce totalAnimationTime) as [L|L].
  - eexists _, _, _. split; [apply (useFrame_running _ _ _ C L)|].
    fold ce. rewrite candleVisible_running. split; [|exact K].
    intro V. apply Qgeb_true in V.
    destruct (fade_after_window ce V) as [O P].
    apply Forall_app. split.
    + apply carries_opacityTrace; [exact O | lra].
    + apply carries_progressTrace; [exact P | lra].
  - eexists _, _, _. split; [apply (useFrame_finishing _ _ _ C L)|].
    fold ce. split; [|exact K]. intros _.
    assert (V : CANDLE_DROP_START <= ce) by lra.
    destruct (fade_after_window ce V) as [O P].
    repeat (apply Forall_app; split).
    + apply carries_opacityTrace; [exact O | lra].
    + apply carries_progressTrace; [exact P | lra].
    + apply carries_opacityTrace; [reflexivity | lra].
    + apply carries_progressTrace; [reflexivity | lra].
    + destruct (completionNotifiedRef r); repeat constructor.
Qed.

Lemma faded_when_candle_shows_witness :
  hasCompletedRef (mkRefs (Some 1) true false false 1 0) = false /\
  exists sc' r' tr,
    useFrame true 5.5 (mounted freshScene (mkRefs (Some 1) true false false 1 0))
      = (mounted sc' r', tr) /\
    (visible (candle sc') = true -> Forall (carries 0 1) tr).
Proof.
  split; [reflexivity|].
  destruct (faded_when_candle_shows freshScene
              (mkRefs (Some 1) true false false 1 0) 5.5 eq_refl)
    as (sc' & r' & tr & U & A & _).
  exists sc', r', tr. split; assumption.
Defined.

(** X14: before the terminal tick the opacity a playing tick calls for
    never rises and the progress never falls as the clamped elapsed time
    grows; both stay between 0 and 1 and sum to 1. *)
Theorem fade_monotone (sc1 sc2 : Scene) (r1 r2 : Refs) (t1 t2 : Q) :
  hasCompletedRef r1 = false ->
  hasCompletedRef r2 = false ->
  clampedElapsedOf r1 t1 <= clampedElapsedOf r2 t2 ->
  clampedElapsedOf r2 t2 < totalAnimationTime ->
  exists sc1' r1' tr1 sc2' r2' tr2 o1 p1 o2 p2,
    useFrame true t1 (mounted sc1 r1) = (mounted sc1' r1', tr1) /\
    useFrame true t2 (mounted sc2 r2) = (mounted sc2' r2', tr2) /\
    requests tr1 = [call_emitBackgroundOpacity o1; call_emitEnvironmentProgress p1] /\
    requests tr2 = [call_emitBackgroundOpacity o2; call_emitEnvironmentProgress p2] /\
    o2 <= o1 /\ p1 <= p2 /\
    0 <= o2 /\ o1 <= 1 /\ 0 <= p1 /\ p2 <= 1 /\
    o1 + p1 == 1 /\ o2 + p2 == 1.
Proof.
  intros C1 C2 L L2.
  set (ce1 := clampedElapsedOf r1 t1) in *.
  set (ce2 := clampedElapsedOf r2 t2) in *.
  assert (L1 : ce1 < totalAnimationTime) by lra.
  pose proof (fadeOpacity_antitone ce1 ce2 L) as M.
  pose proof (fadeOpacity_range ce1) as R1.
  pose proof (fadeOpacity_range ce2) as R2.
  pose proof (fade_sum ce1) as S1. pose proof (fade_sum ce2) as S2.
  eexists _, _, _, _, _, _, _, _, _, _.
  split; [apply (useFrame_running _ _ _ C1 L1)|].
  split; [apply (useFrame_running _ _ _ C2 L2)|].
  fold ce1 ce2. rewrite !requests_pair.
  split; [reflexivity|]. split; [reflexivity|].
  repeat split; lra.
Qed.

Lemma fade_monotone_witness :
  hasCompletedRef (mkRefs (Some 1) true false false 1 0) = false /\
  clampedElapsedOf (mkRefs (Some 1) true false false 1 0) 4.2
    <= clampedElapsedOf (mkRefs (Some 1) true false false 1 0) 4.6 /\
  clampedElapsedOf (mkRefs (Some 1) true false false 1 0) 4.6 < totalAnimationTime /\
  exists sc1' r1' tr1 sc2' r2' tr2 o1 p1 o2 p2,
    useFrame true 4.2 (mounted freshScene (mkRefs (Some 1) true false false 1 0))
      = (mounted sc1' r1', tr1) /\
    useFrame true 4.6 (mounted freshScene (mkRefs (Some 1) true false false 1 0))
      = (mounted sc2' r2', tr2) /\
    requests tr1 = [call_emitBackgroundOpacity o1; call_emitEnvironmentProgress p1] /\
    requests tr2 = [call_emitBackgroundOpacity o2; call_emitEnvironmentProgress p2] /\
    o2 <= o1 /\ p1 <= p2.
Proof.
  split; [reflexivity|]. split; [vm_compute; discriminate|].
  split; [vm_compute; reflexivity|].
  destruct (fade_monotone freshScene freshScene
              (mkRefs (Some 1) true false false 1 0)
              (mkRefs (Some 1) true false false 1 0) 4.2 4.6 eq_refl eq_refl)
    as (s1 & q1 & u1 & s2 & q2 & u2 & o1 & p1 & o2 & p2
        & A & B & R1 & R2 & M1 & M2 & _).
  - vm_compute. discriminate.
  - vm_compute. reflexivity.
  - exists s1, q1, u1, s2, q2, u2, o1, p1, o2, p2. repeat split; assumption.
Defined.

(** ** The typed lines on screen *)

Lemma nth_map_indexed {A B : Type} (f : nat * A -> B) (l : list A)
  (k i : nat) (da : A) (db : B) :
  (i < List.length l)%nat ->
  nth i (map f (combine (seq k (List.length l)) l)) db = f ((k + i)%nat, nth i l da).
Proof.
  revert k i. induction l as [|a l IH]; intros k i H; cbn in H; [lia|].
  destruct i as [|i]; cbn.
  - rewrite Nat.add_0_r. reflexivity.
  - rewrite (IH (S k) i); [|lia]. f_equal. f_equal. lia.
Qed.

Lemma map_snd_indexed {A : Type} (f : nat * A -> A) (l : list A) (k : nat) :
  (forall p, f p = snd p) -> map f (combine (seq k (List.length l)) l) = l.
Proof.
  intro H. revert k. induction l as [|a l IH]; intro k; [reflexivity|].
  cbn. rewrite H, IH. reflexivity.
Qed.

Lemma indexed_length {A : Type} (l : list A) (k : nat) :
  List.length (combine (seq k (List.length l)) l) = List.length l.
Proof. rewrite length_combine, length_seq. lia. Qed.

Lemma substring_prefix (n : nat) (s : string) :
  String.prefix (substring 0 n s) s = true.
Proof.
  revert n. induction s as [|c s IH]; intros [|n]; cbn; try reflexivity.
  destruct (Ascii.ascii_dec c c) as [_|N]; [apply IH | contradiction].
Qed.

Lemma prefix_refl (s : string) : String.prefix s s = true.
Proof.
  induction s as [|c s IH]; [reflexivity|]. cbn.
  destruct (Ascii.ascii_dec c c) as [_|N]; [exact IH | contradiction].
Qed.

Lemma prefix_empty (s : string) : String.prefix EmptyString s = true.
Proof. destruct s; reflexivity. Qed.

Lemma typedLines_length (L : list string) (s : Intro) :
  List.length (typedLines L s) = Nat.max 1 (List.length L).
Proof.
  unfold typedLines. destruct (List.length L =? 0)%nat eqn:Z.
  - apply Nat.eqb_eq in Z. rewrite Z. reflexivity.
  - apply Nat.eqb_neq in Z. rewrite length_map, indexed_length. lia.
Qed.

Lemma typedLines_nth (L : list string) (s : Intro) (i : nat) :
  (i < List.length L)%nat ->
  nth i (typedLines L s) EmptyString =
  (if typingComplete L s || (i <? currentLineIndex s) then nth i L EmptyString
   else if (i =? currentLineIndex s)%nat then
     substring 0 (Nat.min (currentCharIndex s)
                    (String.length (nth i L EmptyString)))
       (nth i L EmptyString)
   else EmptyString).
Proof.
  intro H. unfold typedLines.
  assert (Z : (List.length L =? 0)%nat = false) by (apply Nat.eqb_neq; lia).
  rewrite Z. rewrite (nth_map_indexed _ L 0 i EmptyString EmptyString H).
  reflexivity.
Qed.

(** X17: the cursor of the intro is always on a rendered line.  The screen
    shows one line per entry of [TYPED_LINES], or a single blank line when
    there is none, and the cursor index is below that number: it is the
    current line while typing and the last line once typing is complete. *)
Theorem typed_cursor_in_bounds (L : list string) (s : Intro) :
  List.length (typedLines L s) = Nat.max 1 (List.length L) /\
  (cursorTargetIndex L s < List.length (typedLines L s))%nat /\
  cursorTargetIndex L s =
  (if typingComplete L s then List.length (typedLines L s) - 1
   else currentLineIndex s)%nat.
Proof.
  pose proof (typedLines_length L s) as Len.
  split; [exact Len|].
  unfold cursorTargetIndex, cursorLineIndex, typingComplete in *.
  destruct (List.length L <=? currentLineIndex s) eqn:C.
  - split; lia.
  - apply Nat.leb_gt in C. split; lia.
Qed.

(** X18: what the intro shows of a line is always a prefix of that line:
    the lines before the current one in full, the current one up to the
    character index, the later ones blank; and once typing is complete the
    screen shows [TYPED_LINES] itself. *)
Theorem typed_lines_reveal (L : list string) (s : Intro) :
  (forall i, String.prefix (nth i (typedLines L s) EmptyString)
                           (nth i L EmptyString) = true) /\
  (forall i, (i < currentLineIndex s)%nat -> (i < List.length L)%nat ->
             nth i (typedLines L s) EmptyString = nth i L EmptyString) /\
  (forall i, typingComplete L s = false -> (currentLineIndex s < i)%nat ->
             nth i (typedLines L s) EmptyString = EmptyString) /\
  (typingComplete L s = true -> L <> [] -> typedLines L s = L).
Proof.
  split; [|split; [|split]].
  - intro i. destruct (Nat.lt_ge_cases i (List.length L)) as [H|H].
    + rewrite (typedLines_nth L s i H).
      destruct (typingComplete L s || (i <? currentLineIndex s));
        [apply prefix_refl|].
      destruct (i =? currentLineIndex s)%nat;
        [apply substring_prefix | apply prefix_empty].
    + rewrite (nth_overflow L EmptyString H).
      destruct L as [|l L]; [destruct i as [|[|i]]; reflexivity|].
      rewrite nth_overflow; [reflexivity|].
      rewrite typedLines_length. cbn [List.length] in *. lia.
  - intros i A B. rewrite (typedLines_nth L s i B).
    apply Nat.ltb_lt in A. rewrite A, orb_true_r. reflexivity.
  - intros i C A. destruct (Nat.lt_ge_cases i (List.length L)) as [H|H].
    + rewrite (typedLines_nth L s i H), C.
      assert (B1 : (i <? currentLineIndex s) = false) by (apply Nat.ltb_ge; lia).
      assert (B2 : (i =? currentLineIndex s)%nat = false)
        by (apply Nat.eqb_neq; lia).
      rewrite B1, B2. reflexivity.
    + apply nth_overflow. rewrite typedLines_length.
      unfold typingComplete in C. apply Nat.leb_gt in C. lia.
  - intros C N. unfold typedLines.
    assert (Z : (List.length L =? 0)%nat = false).
    { apply Nat.eqb_neq. destruct L; [contradiction | cbn; lia]. }
    rewrite Z. apply map_snd_indexed. intros [index line].
    rewrite C. reflexivity.
Qed.

(** ** The sequencers run to their end *)

Lemma linesCost_skipn_step (L : list string) (k : nat) :
  (k < List.length L)%nat ->
  linesCost (skipn k L) =
  (S (String.length (nth k L EmptyString)) + linesCost (skipn (S k) L))%nat.
Proof.
  revert k. induction L as [|l L IH]; intros k H; cbn in H; [lia|].
  destruct k as [|k]; [reflexivity|].
  cbn [skipn nth]. apply IH. lia.
Qed.

Lemma linesCost_skipn_mono (L : list string) (j k : nat) :
  (k <= j)%nat -> (linesCost (skipn j L) <= linesCost (skipn k L))%nat.
Proof.
  intro H. induction H as [|j H IH]; [lia|].
  destruct (Nat.lt_ge_cases j (List.length L)) as [B|B].
  - rewrite (linesCost_skipn_step L j B) in IH. lia.
  - rewrite (skipn_all2 L) by lia. cbn. lia.
Qed.

Lemma typingLeft_bound (L : list string) (s : Intro) :
  (typingLeft L s <= linesCost L)%nat.
Proof.
  unfold typingLeft. destruct (currentLineIndex s <? List.length L); [|lia].
  pose proof (linesCost_skipn_mono L (currentLineIndex s) 0 (Nat.le_0_l _)) as M.
  cbn [skipn] in M. lia.
Qed.

Lemma typingLeft_zero (L : list string) (s : Intro) :
  typingLeft L s = 0%nat <-> typingComplete L s = true.
Proof.
  unfold typingLeft, typingComplete.
  destruct (currentLineIndex s <? List.length L) eqn:B.
  - apply Nat.ltb_lt in B.
    rewrite (linesCost_skipn_step L _ B). split; intro H; [lia|].
    apply Nat.leb_le in H. lia.
  - apply Nat.ltb_ge in B. split; [intros _; apply Nat.leb_le; exact B|].
    reflexivity.
Qed.

Lemma typingTimeout_decreases (L : list string) (s : Intro) :
  typingComplete L s = false ->
  (typingLeft L (fst (typingTimeout L s)) < typingLeft L s)%nat.
Proof.
  intro C. unfold typingComplete in C. apply Nat.leb_gt in C.
  pose proof C as B. apply Nat.ltb_lt in B.
  unfold typingTimeout.
  destruct (currentCharIndex s
            <? String.length (nth (currentLineIndex s) L EmptyString)) eqn:K.
  - apply Nat.ltb_lt in K. unfold typingLeft.
    cbn [fst currentLineIndex currentCharIndex]. rewrite B.
    rewrite (linesCost_skipn_step L _ C). lia.
  - apply Nat.ltb_ge in K.
    destruct (skipEmptyLines_spec L (List.length L) (currentLineIndex s + 1))
      as (A1 & A2 & _); [lia|].
    set (j := skipEmptyLines L (List.length L) (currentLineIndex s + 1)) in *.
    unfold typingLeft at 2. rewrite B.
    rewrite (linesCost_skipn_step L _ C).
    pose proof (linesCost_skipn_mono L j (S (currentLineIndex s))) as M.
    unfold typingLeft. cbn [fst currentLineIndex currentCharIndex].
    destruct (j <? List.length L); lia.
Qed.

Lemma timerFires_progress (L : list string) (s : Intro) :
  hasStarted s = true ->
  hasStarted (timerFires L s) = true /\
  (introLeft L (timerFires L s) <= introLeft L s - 1)%nat /\
  (introLeft L s = 0%nat -> timerFires L s = s).
Proof.
  intro H. unfold timerFires, typingEffect. rewrite H. cbn [negb].
  destruct (typingComplete L s) eqn:C.
  - pose proof (proj2 (typingLeft_zero L s) C) as Z.
    destruct (sceneStarted s) eqn:Sc; cbn [negb].
    + unfold introLeft. rewrite Sc. split; [exact H|].
      split; [lia | reflexivity].
    + unfold introLeft. rewrite Sc.
      cbn [sceneStarted hasStarted]. split; [exact H|].
      split; [|intro; lia].
      unfold typingLeft in *. cbn [currentLineIndex currentCharIndex]. lia.
  - pose proof (typingTimeout_decreases L s C) as D.
    assert (P : hasStarted (fst (typingTimeout L s)) = true /\
                sceneStarted (fst (typingTimeout L s)) = sceneStarted s).
    { unfold typingTimeout.
      destruct (currentCharIndex s <? _); cbn; split; (exact H || reflexivity). }
    destruct P as [P1 P2]. split; [exact P1|].
    unfold introLeft. rewrite P2. split; [lia|].
    intro Z. assert (typingLeft L s = 0%nat) by lia.
    apply typingLeft_zero in H0. congruence.
Qed.

Lemma timerFires_iter (L : list string) (s : Intro) (n : nat) :
  hasStarted s = true ->
  hasStarted (Nat.iter n (timerFires L) s) = true /\
  (introLeft L (Nat.iter n (timerFires L) s) <= introLeft L s - n)%nat.
Proof.
  intro H. induction n as [|n [IH1 IH2]]; [split; [exact H | cbn; lia]|].
  rewrite Nat.iter_succ.
  destruct (timerFires_progress L _ IH1) as (A & B & _).
  split; [exact A | lia].
Qed.

(** X19: the intro always runs to its end.  Once started, from any line
    and character index, after at most one timer per character and per
    line of [TYPED_LINES] plus one, typing is complete and the scene has
    started, and from then on the timer changes nothing. *)
Theorem typing_terminates (L : list string) (s : Intro) (n : nat) :
  hasStarted s = true ->
  (linesCost L + 1 <= n)%nat ->
  let s' := Nat.iter n (timerFires L) s in
  typingComplete L s' = true /\
  sceneStarted s' = true /\
  hasStarted s' = true /\
  timerFires L s' = s'.
Proof.
  intros H N s'.
  destruct (timerFires_iter L s n H) as [A B]. fold s' in A, B.
  pose proof (typingLeft_bound L s) as T.
  assert (Z : introLeft L s' = 0%nat).
  { unfold introLeft in B at 2. destruct (sceneStarted s); lia. }
  pose proof Z as Z'. unfold introLeft in Z'.
  split; [apply typingLeft_zero; lia|].
  split; [destruct (sceneStarted s'); [reflexivity | lia]|].
  split; [exact A|].
  apply (timerFires_progress L s' A). exact Z.
Qed.

Lemma typing_terminates_witness :
  hasStarted (mkIntro true false 0 0) = true /\
  (linesCost ["A"; ""; "B"]%string + 1 <= 6)%nat /\
  Nat.iter 6 (timerFires ["A"; ""; "B"]%string) (mkIntro true false 0 0)
    = mkIntro true true 3 0 /\
  typingComplete ["A"; ""; "B"]%string
    (Nat.iter 6 (timerFires ["A"; ""; "B"]%string) (mkIntro true false 0 0)) = true.
Proof.
  split; [reflexivity|]. split; [cbn; lia|]. split; [reflexivity|].
  apply (typing_terminates ["A"; ""; "B"]%string (mkIntro true false 0 0) 6);
    [reflexivity | cbn; lia].
Defined.

Lemma terminalTypedLines_complete (L : list string) (s : Terminal) :
  terminalTypingComplete s = true -> L <> [] -> terminalTypedLines L s = L.
Proof.
  intros C N. unfold terminalTypedLines.
  assert (Z : (List.length L =? 0)%nat = false).
  { apply Nat.eqb_neq. destruct L; [contradiction | cbn; lia]. }
  rewrite Z. apply map_snd_indexed. intros [index line].
  rewrite C. reflexivity.
Qed.

Lemma terminalTimerFires_progress (L : list string) (D : list nat) (s : Terminal) :
  showCameraModal (terminalTimerFires L D s) = showCameraModal s /\
  (terminalLeft L (terminalTimerFires L D s) <= terminalLeft L s - 1)%nat /\
  (terminalLeft L s = 0%nat -> terminalTimerFires L D s = s) /\
  ((terminalLineIndex s < List.length L)%nat ->
   (terminalLineIndex (terminalTimerFires L D s) < List.length L)%nat).
Proof.
  unfold terminalTimerFires, terminalEffect, terminalLeft.
  destruct (negb (showCameraModal s) || terminalTypingComplete s) eqn:G.
  - rewrite G. repeat split; lia || tauto.
  - set (li := terminalLineIndex s). set (ci := terminalCharIndex s).
    destruct (String.length (nth li L EmptyString) <=? ci) eqn:K.
    + apply Nat.leb_le in K. unfold terminalLineTimeout. fold li.
      destruct (skipEmptyLines_spec L (List.length L) (li + 1))
        as (A1 & A2 & _); [lia|].
      set (j := skipEmptyLines L (List.length L) (li + 1)) in *.
      destruct (List.length L <=? j) eqn:J.
      * cbn [showCameraModal terminalTypingComplete terminalLineIndex
             terminalCharIndex].
        rewrite orb_true_r. fold li. repeat split; lia || tauto.
      * apply Nat.leb_gt in J.
        cbn [showCameraModal terminalTypingComplete terminalLineIndex
             terminalCharIndex].
        rewrite G.
        assert (B : (li < List.length L)%nat) by lia.
        rewrite (linesCost_skipn_step L li B).
        pose proof (linesCost_skipn_mono L j (S li)) as M.
        repeat split; lia.
    + apply Nat.leb_gt in K. unfold terminalCharTimeout.
      cbn [fst showCameraModal terminalTypingComplete terminalLineIndex
           terminalCharIndex].
      rewrite G. fold li ci.
      assert (B : (li < List.length L)%nat).
      { destruct (Nat.lt_ge_cases li (List.length L)) as [B|B]; [exact B|].
        rewrite (nth_overflow L EmptyString B) in K. cbn in K. lia. }
      rewrite (linesCost_skipn_step L li B).
      repeat split; lia.
Qed.

Lemma terminalTimerFires_iter (L : list string) (D : list nat) (s : Terminal)
  (n : nat) :
  showCameraModal (Nat.iter n (terminalTimerFires L D) s) = showCameraModal s /\
  (terminalLeft L (Nat.iter n (terminalTimerFires L D) s)
   <= terminalLeft L s - n)%nat /\
  ((terminalLineIndex s < List.length L)%nat ->
   (terminalLineIndex (Nat.iter n (terminalTimerFires L D) s) < List.length L)%nat).
Proof.
  induction n as [|n (IH1 & IH2 & IH3)]; [cbn; repeat split; (lia || tauto)|].
  rewrite Nat.iter_succ.
  destruct (terminalTimerFires_progress L D (Nat.iter n (terminalTimerFires L D) s))
    as (A & B & _ & E).
  split; [congruence|]. split; [lia|]. intro H. apply E, IH3, H.
Qed.

Lemma terminalLeft_bound (L : list string) (s : Terminal) :
  (terminalLeft L s <= linesCost L + 1)%nat.
Proof.
  unfold terminalLeft.
  destruct (negb (showCameraModal s) || terminalTypingComplete s); [lia|].
  pose proof (linesCost_skipn_mono L (terminalLineIndex s) 0 (Nat.le_0_l _)) as M.
  cbn [skipn] in M. lia.
Qed.

(** X20: the terminal always runs to its end.  While the modal is shown,
    from any line and character index, after at most one timer per
    character and per line of [TERMINAL_LINES] plus one, typing is marked
    complete, the screen shows every line in full and the timer changes
    nothing any more; the line index never leaves the list. *)
Theorem terminal_terminates (L : list string) (D : list nat) (s : Terminal)
  (n : nat) :
  showCameraModal s = true ->
  (linesCost L + 1 <= n)%nat ->
  let s' := Nat.iter n (terminalTimerFires L D) s in
  terminalTypingComplete s' = true /\
  showCameraModal s' = true /\
  terminalTimerFires L D s' = s' /\
  (L <> [] -> terminalTypedLines L s' = L) /\
  ((terminalLineIndex s < List.length L)%nat ->
   (terminalLineIndex s' < List.length L)%nat).
Proof.
  intros H N s'.
  destruct (terminalTimerFires_iter L D s n) as (A & B & E). fold s' in A, B, E.
  pose proof (terminalLeft_bound L s) as T.
  assert (Z : terminalLeft L s' = 0%nat) by lia.
  assert (C : terminalTypingComplete s' = true).
  { unfold terminalLeft in Z. rewrite A, H in Z. cbn [negb orb] in Z.
    destruct (terminalTypingComplete s'); [reflexivity | lia]. }
  split; [exact C|]. split; [congruence|].
  split; [apply (terminalTimerFires_progress L D s'); exact Z|].
  split; [apply terminalTypedLines_complete; exact C | exact E].
Qed.

Lemma terminal_terminates_witness :
  showCameraModal (mkTerminal true false 0 0 true "hidden") = true /\
  (linesCost ["> A"; ""; ":)"]%string + 1 <= 9)%nat /\
  Nat.iter 9 (terminalTimerFires ["> A"; ""; ":)"]%string [800; 1000]%nat)
    (mkTerminal true false 0 0 true "hidden")
  = mkTerminal true true 2 2 true "hidden" /\
  terminalTypingComplete
    (Nat.iter 9 (terminalTimerFires ["> A"; ""; ":)"]%string [800; 1000]%nat)
       (mkTerminal true false 0 0 true "hidden")) = true.
Proof.
  split; [reflexivity|]. split; [cbn; lia|]. split; [reflexivity|].
  apply (terminal_terminates ["> A"; ""; ":)"]%string [800; 1000]%nat
           (mkTerminal true false 0 0 true "hidden") 9);
    [reflexivity | cbn; lia].
Defined.



(** X22: the pause after a terminal line.  When the modal is shown, typing
    is not complete and the current line is fully typed, the effect arms
    the pause of that line from [TERMINAL_LINE_DELAYS], or 800 ms when the
    table has no entry for it.  When the pause is over the sequencer either
    moves to the next non-empty line, at character 0, or, when only empty
    lines or none remain, marks typing complete and stays on its line. *)
Theorem terminal_line_pause (L : list string) (D : list nat) (s : Terminal) :
  showCameraModal s = true ->
  terminalTypingComplete s = false ->
  (String.length (nth (terminalLineIndex s) L EmptyString)
   <= terminalCharIndex s)%nat ->
  let li := terminalLineIndex s in
  let s' := terminalTimerFires L D s in
  terminalEffect L D s = LineTimer (nth li D 800%nat) /\
  ((List.length D <= li)%nat -> terminalEffect L D s = LineTimer 800) /\
  (forall i, (li < i < terminalLineIndex s')%nat -> nth i L EmptyString = EmptyString) /\
  ((terminalTypingComplete s' = true /\
    terminalLineIndex s' = li /\
    terminalCharIndex s' = terminalCharIndex s /\
    forall i, (li < i < List.length L)%nat -> nth i L EmptyString = EmptyString)
   \/
   (terminalTypingComplete s' = false /\
    (li < terminalLineIndex s' < List.length L)%nat /\
    terminalCharIndex s' = 0%nat /\
    nth (terminalLineIndex s') L EmptyString <> EmptyString)).
Proof.
  intros Sh C K li s'.
  assert (E : terminalEffect L D s = LineTimer (nth li D 800%nat)).
  { unfold terminalEffect. rewrite Sh, C. cbn [negb orb].
    apply Nat.leb_le in K. rewrite K. reflexivity. }
  split; [exact E|].
  split; [intro O; rewrite E, (nth_overflow D 800%nat O); reflexivity|].
  unfold s', terminalTimerFires. rewrite E. unfold terminalLineTimeout.
  fold li.
  destruct (skipEmptyLines_spec L (List.length L) (li + 1))
    as (A1 & A2 & A3 & A4); [lia|].
  set (j := skipEmptyLines L (List.length L) (li + 1)) in *.
  destruct (List.length L <=? j) eqn:J.
  - apply Nat.leb_le in J.
    cbn [terminalTypingComplete terminalLineIndex terminalCharIndex]. fold li.
    split; [intros i Hi; lia|]. left.
    repeat split. intros i Hi. apply A3. lia.
  - apply Nat.leb_gt in J.
    cbn [terminalTypingComplete terminalLineIndex terminalCharIndex].
    split; [intros i Hi; apply A3; lia|]. right.
    repeat split; try lia; try assumption. apply A4. exact J.
Qed.

Lemma terminal_line_pause_witness :
  showCameraModal (mkTerminal true false 0 3 true "hidden") = true /\
  terminalTypingComplete (mkTerminal true false 0 3 true "hidden") = false /\
  (String.length (nth 0 ["> A"; ""; ":)"]%string EmptyString) <= 3)%nat /\
  terminalEffect ["> A"; ""; ":)"]%string [] (mkTerminal true false 0 3 true "hidden")
    = LineTimer 800 /\
  terminalTimerFires ["> A"; ""; ":)"]%string []
    (mkTerminal true false 0 3 true "hidden")
  = mkTerminal true false 2 0 true "hidden".
Proof.
  split; [reflexivity|]. split; [reflexivity|]. split; [cbn; lia|].
  split; [|reflexivity].
  destruct (terminal_line_pause ["> A"; ""; ":)"]%string []
              (mkTerminal true false 0 3 true "hidden") eq_refl eq_refl)
    as (_ & E & _); [cbn; lia|].
  apply E. cbn. lia.
Defined.

(** ** Keys, candle and fireworks *)

Lemma Interaction_step_keeps (e : Interaction.Event) (s : Interaction.State) :
  Interaction.fireworksActive s = negb (Interaction.isCandleLit s) ->
  (Interaction.fireworksActive s = true ->
   Interaction.hasStarted s = true /\ Interaction.hasAnimationCompleted s = true) ->
  let s' := fst (Interaction.step e s) in
  Interaction.fireworksActive s' = negb (Interaction.isCandleLit s') /\
  (Interaction.fireworksActive s' = true ->
   Interaction.hasStarted s' = true /\ Interaction.hasAnimationCompleted s' = true) /\
  (Interaction.fireworksActive s = true -> s' = s).
Proof.
  destruct s as [st co li fw]. cbn. intros -> H.
  destruct e as [[c k]|]; cbn; unfold Interaction.handleKeyDown; cbn.
  - destruct (negb (c =? "Space")%string && negb (k =? " ")%string); cbn.
    + repeat split; try tauto.
    + destruct st, co, li; cbn in *; repeat split; try tauto;
        try discriminate; intro F; destruct (H F); discriminate.
  - destruct li, co; cbn in *; repeat split; try tauto;
      intro F; try discriminate; destruct (H F); discriminate.
Qed.

(** X23: the candle is blown out only after the animation has completed,
    and only once.  Over any sequence of key presses and completion
    callbacks from the initial state, the fireworks are active exactly
    when the candle is out, and then the page has started and the
    animation has completed; and once the fireworks are active no key and
    no callback changes the state again. *)
Theorem candle_blown_once (events : list Interaction.Event) :
  let s := fst (Interaction.run events Interaction.initial) in
  Interaction.fireworksActive s = negb (Interaction.isCandleLit s) /\
  (Interaction.fireworksActive s = true ->
   Interaction.hasStarted s = true /\ Interaction.hasAnimationCompleted s = true) /\
  (Interaction.fireworksActive s = true ->
   forall more, fst (Interaction.run more s) = s).
Proof.
  assert (G : forall evs s0,
             Interaction.fireworksActive s0 = negb (Interaction.isCandleLit s0) ->
             (Interaction.fireworksActive s0 = true ->
              Interaction.hasStarted s0 = true /\
              Interaction.hasAnimationCompleted s0 = true) ->
             let s := fst (Interaction.run evs s0) in
             Interaction.fireworksActive s = negb (Interaction.isCandleLit s) /\
             (Interaction.fireworksActive s = true ->
              Interaction.hasStarted s = true /\
              Interaction.hasAnimationCompleted s = true) /\
             (Interaction.fireworksActive s0 = true -> s = s0)).
  { induction evs as [|e evs IH]; intros s0 A B.
    - cbn. repeat split; tauto.
    - cbn [Interaction.run].
      destruct (Interaction_step_keeps e s0 A B) as (A1 & B1 & C1).
      destruct (Interaction.step e s0) as [s1 c1]. cbn [fst] in *.
      destruct (IH s1 A1 B1) as (A2 & B2 & C2).
      destruct (Interaction.run evs s1) as [s2 c2]. cbn [fst] in *.
      split; [exact A2|]. split; [exact B2|].
      intro F. specialize (C1 F). subst s1. apply C2, F. }
  intro s.
  destruct (G events Interaction.initial) as (A & B & _);
    [reflexivity | intro F; discriminate F|].
  fold s in A, B. split; [exact A|]. split; [exact B|].
  intros F more. destruct (G more s A B) as (_ & _ & K). apply K, F.
Qed.

Lemma Interaction_no_music (events : list Interaction.Event)
  (s : Interaction.State) :
  Interaction.hasStarted s = true ->
  Interaction.hasStarted (fst (Interaction.run events s)) = true /\
  filter Interaction.is_music (snd (Interaction.run events s)) = [].
Proof.
  revert s. induction events as [|e evs IH]; intros s H; [split; [exact H|reflexivity]|].
  cbn [Interaction.run].
  assert (St : Interaction.hasStarted (fst (Interaction.step e s)) = true /\
               filter Interaction.is_music (snd (Interaction.step e s)) = []).
  { destruct e as [[c k]|]; cbn; [|split; [exact H | reflexivity]].
    unfold Interaction.handleKeyDown; cbn. rewrite H. cbn.
    destruct (negb (c =? "Space")%string && negb (k =? " ")%string);
      [split; [exact H | reflexivity]|].
    destruct (Interaction.hasAnimationCompleted s && Interaction.isCandleLit s);
      cbn; split; (exact H || reflexivity). }
  destruct St as [S1 M1].
  destruct (Interaction.step e s) as [s1 c1]. cbn [fst snd] in *.
  destruct (IH s1 S1) as [S2 M2].
  destruct (Interaction.run evs s1) as [s2 c2]. cbn [fst snd] in *.
  split; [exact S2|]. rewrite filter_app, M1, M2. reflexivity.
Qed.

(** X24: the music is started by the first Space and never again.  A key
    that is neither the Space code nor the space character changes nothing
    and is not even prevented; and over any sequence of events from the
    initial state [playBackgroundMusic] is called once if the page has
    started and not at all otherwise. *)
Theorem music_started_once :
  (forall (event : Interaction.KeyboardEvent) (s : Interaction.State),
     Interaction.code event <> "Space"%string ->
     Interaction.key event <> " "%string ->
     Interaction.handleKeyDown event s = (s, [])) /\
  (forall (events : list Interaction.Event),
     let '(s, calls) := Interaction.run events Interaction.initial in
     List.length (filter Interaction.is_music calls) =
     (if Interaction.hasStarted s then 1 else 0)%nat).
Proof.
  split.
  - intros [c k] s Hc Hk. cbn in Hc, Hk. unfold Interaction.handleKeyDown. cbn.
    apply String.eqb_neq in Hc. apply String.eqb_neq in Hk.
    rewrite Hc, Hk. reflexivity.
  - assert (G : forall evs s0,
               Interaction.hasStarted s0 = false ->
               List.length (filter Interaction.is_music
                              (snd (Interaction.run evs s0))) =
               (if Interaction.hasStarted (fst (Interaction.run evs s0))
                then 1 else 0)%nat).
    { induction evs as [|e evs IH]; intros s0 H; [cbn; rewrite H; reflexivity|].
      cbn [Interaction.run].
      destruct e as [[c k]|]; cbn [Interaction.step].
      - unfold Interaction.handleKeyDown. cbn [Interaction.code Interaction.key].
        rewrite H. cbn [negb].
        destruct (negb (c =? "Space")%string && negb (k =? " ")%string).
        + specialize (IH s0 H). destruct (Interaction.run evs s0) as [s2 c2].
          exact IH.
        + destruct (Interaction_no_music evs
                      (Interaction.mkState true
                         (Interaction.hasAnimationCompleted s0)
                         (Interaction.isCandleLit s0)
                         (Interaction.fireworksActive s0)) eq_refl) as [S M].
          destruct (Interaction.run evs _) as [s2 c2]. cbn [fst snd] in *.
          rewrite S. cbn. rewrite M. reflexivity.
      - specialize (IH (Interaction.handleAnimationComplete s0) H).
        destruct (Interaction.run evs _) as [s2 c2]. exact IH. }
    intro events. specialize (G events Interaction.initial eq_refl).
    destruct (Interaction.run events Interaction.initial) as [s calls].
    exact G.
Qed.

(** ** The music fades *)

Lemma inject_nat_succ (n : nat) :
  inject_Z (Z.of_nat (S n)) == inject_Z (Z.of_nat n) + 1.
Proof. rewrite Nat2Z.inj_succ. unfold Z.succ. rewrite inject_Z_plus. reflexivity. Qed.

Lemma inject_nat_nonneg (n : nat) : 0 <= inject_Z (Z.of_nat n).
Proof.
  change 0 with (inject_Z 0). rewrite <- Zle_Qle. apply Nat2Z.is_nonneg.
Qed.

Lemma setInterval_cleared_more (callback : Audio.Element -> Audio.Element * bool)
  (n m : nat) (a a' : Audio.Element) :
  Audio.setInterval callback n a = (a', true) -> (n <= m)%nat ->
  Audio.setInterval callback m a = (a', true).
Proof.
  revert m a. induction n as [|n IH]; intros m a H L; cbn in H; [discriminate|].
  destruct m as [|m]; [lia|]. cbn [Audio.setInterval].
  destruct (callback a) as [a1 [|]]; [exact H|].
  apply IH; [exact H | lia].
Qed.

Lemma fadeOut_runs_out (volumeStep : Q) (n : nat) (a : Audio.Element) :
  0 <= volumeStep ->
  Audio.volume a <= 0.1 + inject_Z (Z.of_nat n) * volumeStep ->
  Audio.setInterval (Audio.fadeOutTick volumeStep) (S n) a
  = (Audio.mkElement 0 true, true).
Proof.
  intro S0. revert a. induction n as [|n IH]; intros a H;
    cbn [Audio.setInterval]; unfold Audio.fadeOutTick at 1;
    destruct (Qgtb (Audio.volume a) 0.1) eqn:G; try reflexivity.
  - apply Qgtb_true in G. exfalso. cbn in H. unfold inject_Z in H. lra.
  - apply Qgtb_true in G. apply IH. cbn [Audio.volume].
    rewrite inject_nat_succ in H.
    pose proof (inject_nat_nonneg n) as N.
    destruct (Q.max_spec 0 (Audio.volume a - volumeStep)) as [[A B]|[A B]];
      rewrite B; nra.
Qed.

Lemma fadeOut_volume_bounds (volumeStep : Q) (n : nat) (a : Audio.Element) :
  0 <= volumeStep -> 0 <= Audio.volume a ->
  0 <= Audio.volume (fst (Audio.setInterval (Audio.fadeOutTick volumeStep) n a))
    <= Audio.volume a.
Proof.
  intro S0. revert a. induction n as [|n IH]; intros a H;
    cbn [Audio.setInterval]; [cbn [fst]; lra|].
  assert (T : Audio.fadeOutTick volumeStep a = (Audio.mkElement 0 true, true) \/
              exists a1, Audio.fadeOutTick volumeStep a = (a1, false) /\
                         0 <= Audio.volume a1 <= Audio.volume a).
  { unfold Audio.fadeOutTick.
    destruct (Qgtb (Audio.volume a) 0.1); [right | left; reflexivity].
    eexists. split; [reflexivity|]. cbn [Audio.volume].
    destruct (Q.max_spec 0 (Audio.volume a - volumeStep)) as [[A E]|[A E]];
      rewrite E; lra. }
  destruct T as [T|(a1 & T & B)]; rewrite T.
  - cbn [fst Audio.volume]. lra.
  - specialize (IH a1 (proj1 B)). lra.
Qed.

(** X25: the fade-out always ends in silence.  For a playing element with
    a volume between 0 and 1, after at most 21 periods of the interval the
    volume is 0, the element is paused and the timer is cleared; and
    however long the interval has run, the volume lies between 0 and the
    volume the fade started from. *)
Theorem fade_out_completes (a : Audio.Element) :
  Audio.paused a = false ->
  0 <= Audio.volume a <= 1 ->
  (forall n, (21 <= n)%nat ->
     Audio.fadeOutMusic n (Some a) = (Some (Audio.mkElement 0 true), Audio.Cleared)) /\
  (forall n, exists a',
     fst (Audio.fadeOutMusic n (Some a)) = Some a' /\
     0 <= Audio.volume a' <= Audio.volume a).
Proof.
  intros P [V0 V1].
  assert (S0 : 0 <= Audio.volume a / 20).
  { apply Qle_shift_div_l; [reflexivity | lra]. }
  split.
  - intros n N. unfold Audio.fadeOutMusic. rewrite P.
    assert (E : Audio.setInterval (Audio.fadeOutTick (Audio.volume a / 20)) 21 a
                = (Audio.mkElement 0 true, true)).
    { apply fadeOut_runs_out; [exact S0|].
      assert (D : inject_Z (Z.of_nat 20) * (Audio.volume a / 20) == Audio.volume a)
        by (cbn; field).
      rewrite D. lra. }
    rewrite (setInterval_cleared_more _ 21 n a _ E N). reflexivity.
  - intro n. unfold Audio.fadeOutMusic. rewrite P.
    pose proof (fadeOut_volume_bounds (Audio.volume a / 20) n a S0 V0) as B.
    destruct (Audio.setInterval _ n a) as [a' c]. exists a'.
    split; [reflexivity | exact B].
Qed.

Lemma fade_out_completes_witness :
  Audio.paused (Audio.mkElement 1 false) = false /\
  0 <= Audio.volume (Audio.mkElement 1 false) <= 1 /\
  Audio.fadeOutMusic 21 (Some (Audio.mkElement 1 false))
  = (Some (Audio.mkElement 0 true), Audio.Cleared).
Proof.
  split; [reflexivity|]. split; [split; vm_compute; discriminate|].
  apply (fade_out_completes (Audio.mkElement 1 false));
    [reflexivity | split; vm_compute; discriminate | lia].
Defined.

Lemma fadeIn_runs_out (n : nat) (a : Audio.Element) :
  0.95 - inject_Z (Z.of_nat n) * 0.05 <= Audio.volume a ->
  Audio.setInterval Audio.fadeInTick (S n) a
  = (Audio.mkElement 1.0 (Audio.paused a), true).
Proof.
  revert a. induction n as [|n IH]; intros a H;
    cbn [Audio.setInterval]; unfold Audio.fadeInTick at 1; cbv zeta;
    destruct (Qltb (Audio.volume a) (1.0 - 0.05)) eqn:G; try reflexivity.
  - apply Qltb_true in G. exfalso. cbn in H. unfold inject_Z in H. lra.
  - apply Qltb_true in G. cbv beta iota.
    apply (IH (Audio.mkElement (Qmin 1.0 (Audio.volume a + 1.0 / 20))
                 (Audio.paused a))).
    cbn [Audio.volume].
    rewrite inject_nat_succ in H.
    pose proof (inject_nat_nonneg n) as N.
    destruct (Q.min_spec 1.0 (Audio.volume a + 1.0 / 20)) as [[A B]|[A B]];
      rewrite B; [nra|].
    assert (1.0 / 20 == 0.05) by reflexivity. nra.
Qed.

Lemma fadeIn_volume_bounds (n : nat) (a : Audio.Element) :
  Audio.volume a <= 1 ->
  Audio.volume a
  <= Audio.volume (fst (Audio.setInterval Audio.fadeInTick n a)) <= 1.
Proof.
  revert a. induction n as [|n IH]; intros a H;
    cbn [Audio.setInterval]; [cbn [fst]; lra|].
  assert (T : Audio.fadeInTick a = (Audio.mkElement 1.0 (Audio.paused a), true) \/
              exists a1, Audio.fadeInTick a = (a1, false) /\
                         Audio.volume a <= Audio.volume a1 <= 1).
  { unfold Audio.fadeInTick. cbv zeta.
    destruct (Qltb (Audio.volume a) (1.0 - 0.05)); [right | left; reflexivity].
    eexists. split; [reflexivity|]. cbn [Audio.volume].
    assert (1.0 / 20 == 0.05) by reflexivity.
    destruct (Q.min_spec 1.0 (Audio.volume a + 1.0 / 20)) as [[A E]|[A E]];
      rewrite E; lra. }
  destruct T as [T|(a1 & T & B)]; rewrite T.
  - cbn [fst Audio.volume]. lra.
  - specialize (IH a1 (proj2 B)). lra.
Qed.

(** X26: the fade-in always ends at full volume.  For an element that is
    paused, or playing at a volume of at least 0, after at most 20 periods
    of the interval the element plays at volume 1 and the timer is cleared;
    a paused element starts from volume 0; and the volume never falls
    during the fade and never exceeds 1. *)
Theorem fade_in_completes (a : Audio.Element) :
  0 <= Audio.volume a <= 1 ->
  (forall n, (20 <= n)%nat ->
     Audio.fadeInMusic n (Some a)
     = (Some (Audio.mkElement 1.0 false), Audio.Cleared)) /\
  (forall n, exists a',
     fst (Audio.fadeInMusic n (Some a)) = Some a' /\
     (if Audio.paused a then 0 else Audio.volume a) <= Audio.volume a' <= 1).
Proof.
  intros [V0 V1].
  set (a1 := if Audio.paused a then Audio.mkElement 0 false else a).
  assert (P1 : Audio.paused a1 = false)
    by (unfold a1; destruct (Audio.paused a) eqn:P; [reflexivity | exact P]).
  assert (W : 0 <= Audio.volume a1 <= 1)
    by (unfold a1; destruct (Audio.paused a); cbn; lra).
  assert (W' : Audio.volume a1 = if Audio.paused a then 0 else Audio.volume a)
    by (unfold a1; destruct (Audio.paused a); reflexivity).
  split.
  - intros n N. unfold Audio.fadeInMusic. fold a1.
    assert (E : Audio.setInterval Audio.fadeInTick 20 a1
                = (Audio.mkElement 1.0 false, true)).
    { rewrite <- P1. apply fadeIn_runs_out.
      assert (Z : 0.95 - inject_Z (Z.of_nat 19) * 0.05 == 0)
        by (vm_compute; reflexivity).
      rewrite Z. apply W. }
    rewrite (setInterval_cleared_more _ 20 n a1 _ E N). reflexivity.
  - intro n. unfold Audio.fadeInMusic. fold a1.
    pose proof (fadeIn_volume_bounds n a1 (proj2 W)) as B.
    destruct (Audio.setInterval _ n a1) as [a' c]. exists a'.
    split; [reflexivity|]. rewrite <- W'. exact B.
Qed.

Lemma fade_in_completes_witness :
  0 <= Audio.volume (Audio.mkElement 0 true) <= 1 /\
  Audio.fadeInMusic 20 (Some (Audio.mkElement 0 true))
  = (Some (Audio.mkElement 1.0 false), Audio.Cleared).
Proof.
  split; [split; vm_compute; discriminate|].
  apply (fade_in_completes (Audio.mkElement 0 true));
    [split; vm_compute; discriminate | lia].
Defined.

(** X27: the two fades undo each other, and neither acts without music.
    Fading out a playing element and then fading in again ends with the
    element playing at volume 1 whatever volume it had; fading out an
    element that is already paused arms no timer and leaves it alone, and
    with no audio element none of the three music functions does
    anything. *)
Theorem music_fades_compose :
  (forall a : Audio.Element,
     Audio.paused a = false -> 0 <= Audio.volume a <= 1 ->
     Audio.fadeInMusic 20 (fst (Audio.fadeOutMusic 21 (Some a)))
     = (Some (Audio.mkElement 1.0 false), Audio.Cleared)) /\
  (forall (a : Audio.Element) (n : nat),
     Audio.paused a = true ->
     Audio.fadeOutMusic n (Some a) = (Some a, Audio.NotArmed) /\
     Audio.playBackgroundMusic (Some a) = Some (Audio.mkElement 1.0 false)) /\
  (forall (a : Audio.Element),
     Audio.paused a = false -> Audio.playBackgroundMusic (Some a) = Some a) /\
  (forall n : nat,
     Audio.fadeOutMusic n None = (None, Audio.NotArmed) /\
     Audio.fadeInMusic n None = (None, Audio.NotArmed) /\
     Audio.playBackgroundMusic None = None).
Proof.
  split; [|split; [|split]].
  - intros a P V.
    assert (S0 : 0 <= Audio.volume a / 20).
    { apply Qle_shift_div_l; [reflexivity | lra]. }
    assert (E : Audio.setInterval (Audio.fadeOutTick (Audio.volume a / 20)) 21 a
                = (Audio.mkElement 0 true, true)).
    { apply fadeOut_runs_out; [exact S0|].
      assert (D : inject_Z (Z.of_nat 20) * (Audio.volume a / 20) == Audio.volume a)
        by (cbn; field).
      rewrite D. lra. }
    unfold Audio.fadeOutMusic. rewrite P. cbv zeta. rewrite E. cbn [fst].
    unfold Audio.fadeInMusic. cbn [Audio.paused].
    change (Audio.mkElement 1.0 false)
      with (Audio.mkElement 1.0 (Audio.paused (Audio.mkElement 0 false))).
    rewrite fadeIn_runs_out; [reflexivity|].
    vm_compute. discriminate.
  - intros a n P. unfold Audio.fadeOutMusic, Audio.playBackgroundMusic.
    rewrite P. split; reflexivity.
  - intros a P. unfold Audio.playBackgroundMusic. rewrite P. reflexivity.
  - intro n. repeat split.
Qed.
